(** * etcd-client: a verification development of the mapping engine

    The development embeds the Go package [etcdclient] (its typed values
    and the record walker of [client.go]) and settles the properties stated
    about it.

    Conventions of the embedding:
    - a Go [string] is a Rocq [string] (a sequence of bytes);
    - a Go [map[string]string] is a [gmap string string]; the nil map is a
      separate constructor of [gomap], because writing to it panics;
    - a Go function returning [(T, error)] returns an [outcome T]; a run-time
      panic is the third constructor of [outcome];
    - state that the Go code mutates (the variable table, the caller's record,
      the supply of unique identifiers) is passed explicitly. *)

From Stdlib Require Import ZArith String Ascii List Lia Bool.
From stdpp Require Import gmap strings.

Local Open Scope string_scope.
Local Open Scope Z_scope.

(** ** Errors and outcomes *)

(** The errors of the package, one constructor per message built with
    [fmt.Errorf], and one per error of the Go libraries it calls. *)
Inductive error : Type :=
| ErrNotPointer                      (* "Provided interface is not a pointer" *)
| ErrNotStruct                       (* "Provided interface is does not reference a struct" *)
| ErrAtInSlice                       (* "cannot use @ pathvar inside slice" *)
| ErrNotPopulated (p : string)       (* "pathvar %s not populated" *)
| ErrNotEtcdValue                    (* "Interface does not implement EtcdValue" *)
| ErrSliceType                       (* "Slice must be of *EtcdValue type" *)
| ErrCast                            (* "failed to cast interface" *)
| ErrSliceOfStructs                  (* "Cannot set a slice of structs. ..." *)
| ErrResponses                       (* "Unexpected number of responses" *)
| ErrInvalidData                     (* "Invalid data for field type" *)
| ErrTxn (msg : string)              (* an error of txn.Commit() *)
| ErrSyntax                          (* strconv.ErrSyntax *)
| ErrRange                           (* strconv.ErrRange *)
| ErrTimeParse                       (* *time.ParseError *)
| ErrCorruptInput.                   (* base64.CorruptInputError *)

Inductive outcome (A : Type) : Type :=
| Ok (a : A)
| Err (e : error)
| Panic.

Arguments Ok {A} a.
Arguments Err {A} e.
Arguments Panic {A}.

#[global] Instance outcome_ret : MRet outcome := fun A a => Ok a.

#[global] Instance outcome_bind : MBind outcome := fun A B k m =>
  match m with
  | Ok a => k a
  | Err e => Err e
  | Panic => Panic
  end.

(** ** The functions of Go's [strings] package used by [pathReplace] *)

Module strings.

(** [strings.Split(s, sep)] for a separator of one byte: the result always
    has one more element than [s] has separators. *)
Fixpoint Split (s : string) (sep : ascii) : list string :=
  match s with
  | EmptyString => [EmptyString]
  | String c s' =>
      if Ascii.eqb c sep then EmptyString :: Split s' sep
      else match Split s' sep with
           | [] => [String c EmptyString]
           | seg :: segs => String c seg :: segs
           end
  end.

Definition HasPrefix (s pre : string) : bool := String.prefix pre s.

Definition TrimPrefix (s pre : string) : string :=
  if HasPrefix s pre
  then String.substring (String.length pre) (String.length s - String.length pre) s
  else s.

(** [strings.Replace(s, old, new, -1)] for a non-empty [old]: every
    non-overlapping occurrence of [old], from the left, becomes [new].
    [skip] counts the bytes of a matched occurrence still to be dropped. *)
Fixpoint Replace_from (skip : nat) (s old new : string) : string :=
  match s with
  | EmptyString => EmptyString
  | String c s' =>
      match skip with
      | S k => Replace_from k s' old new
      | O =>
          if String.prefix old s
          then new +:+ Replace_from (String.length old - 1) s' old new
          else String c (Replace_from 0 s' old new)
      end
  end.

(** The only call site passes an [old] that starts with [":"]; the empty
    [old] (where Go inserts [new] around every rune) leaves [s] as it is. *)
Definition Replace (s old new : string) : string :=
  match old with
  | EmptyString => s
  | _ => Replace_from 0 s old new
  end.

End strings.

(** ** Path resolution *)

(** [pathReplace] (client.go): the segments of the tag are visited in order;
    the first segment that cannot be resolved decides the error, and each
    replacement acts on the whole path as rewritten so far. Reading a nil
    map behaves as reading the empty map, so the table is a [gmap]. *)
Fixpoint pathReplace_range (pathArr : list string) (path : string)
    (pathvars : gmap string string) (inslice : bool) : outcome string :=
  match pathArr with
  | [] => Ok path
  | p :: pathArr' =>
      if strings.HasPrefix p ":" then
        let variable := strings.TrimPrefix p ":" in
        if String.eqb variable "@" && inslice then Err ErrAtInSlice
        else match pathvars !! strings.TrimPrefix p ":" with
             | None => Err (ErrNotPopulated p)
             | Some val =>
                 pathReplace_range pathArr' (strings.Replace path p val) pathvars inslice
             end
      else pathReplace_range pathArr' path pathvars inslice
  end.

Definition pathReplace (path : string) (pathvars : gmap string string)
    (inslice : bool) : outcome string :=
  pathReplace_range (strings.Split path "/"%char) path pathvars inslice.

(** ** The functions of Go's [strconv] package used by the typed values *)

Module strconv.

Definition maxUint64 : Z := 2 ^ 64 - 1.

Definition digit_char (d : Z) : ascii := ascii_of_N (Z.to_N (48 + d)).

(** The value of a decimal digit, [c - '0'] for ['0' <= c <= '9']. *)
Definition digit_val (c : ascii) : option Z :=
  let n := Z.of_N (N_of_ascii c) in
  if (48 <=? n) && (n <=? 57) then Some (n - 48) else None.

(** [formatBits] in base 10: the digits are produced from the least
    significant one, each put in front of the ones already written. The
    loop runs at most 19 times for a 64-bit value; [fuel] bounds it. *)
Fixpoint formatBits (fuel : nat) (us : Z) (a : string) : string :=
  match fuel with
  | O => String (digit_char (us mod 10)) a
  | S fuel' =>
      if 10 <=? us
      then formatBits fuel' (us / 10) (String (digit_char (us mod 10)) a)
      else String (digit_char us) a
  end.

Definition FormatUint (u : Z) : string := formatBits 20 u "".

Definition FormatInt (i : Z) : string :=
  if i <? 0 then String "-" (formatBits 20 (- i) "") else formatBits 20 i "".

(** The digit loop of [ParseUint(s, 10, 64)], with the accumulator [n];
    the sum wraps around at 64 bits as in the source. *)
Fixpoint parseDigits (s : string) (n : Z) : outcome Z :=
  match s with
  | EmptyString => Ok n
  | String c s' =>
      match digit_val c with
      | None => Err ErrSyntax
      | Some d =>
          if maxUint64 / 10 + 1 <=? n then Err ErrRange
          else
            let n := n * 10 in
            let n1 := (n + d) mod 2 ^ 64 in
            if (n1 <? n) || (maxUint64 <? n1) then Err ErrRange
            else parseDigits s' n1
      end
  end.

Definition ParseUint (s : string) : outcome Z :=
  match s with
  | EmptyString => Err ErrSyntax
  | _ => parseDigits s 0
  end.

(** [ParseInt(s, 10, 64)]. A range error of [ParseUint] stays a range
    error; the other errors are returned as they are. *)
Definition ParseInt (s : string) : outcome Z :=
  match s with
  | EmptyString => Err ErrSyntax
  | String c s' =>
      let '(neg, s) :=
        if Ascii.eqb c "+" then (false, s')
        else if Ascii.eqb c "-" then (true, s')
        else (false, s) in
      un ← ParseUint s;
      let cutoff := 2 ^ 63 in
      if negb neg && (cutoff <=? un) then Err ErrRange
      else if neg && (cutoff <? un) then Err ErrRange
      else Ok (if neg then - un else un)
  end.

Definition FormatBool (b : bool) : string := if b then "true" else "false".

Definition ParseBool (str : string) : outcome bool :=
  if existsb (String.eqb str) ["1"; "t"; "T"; "TRUE"; "true"; "True"] then Ok true
  else if existsb (String.eqb str) ["0"; "f"; "F"; "FALSE"; "false"; "False"] then Ok false
  else Err ErrSyntax.

End strconv.

(** ** Go's [time] package: [Format] and [Parse] with the layout [RFC3339] *)

Module time.

(** A [time.Time] is represented by what its accessors report in its own
    location: [Date()], [Clock()], [Nanosecond()], and the offset of
    [Zone()] in seconds east of UTC. [Format] and [Parse] are functions of
    these readings only; the monotonic clock reading and the name of the
    location are not modelled. *)
Record Time : Type := mkTime {
  Year : Z; Month : Z; Day : Z;
  Hour : Z; Minute : Z; Second : Z;
  Nanosecond : Z;
  Offset : Z }.

(** The zero [time.Time]: January 1, year 1, 00:00:00 UTC. *)
Definition zero : Time := mkTime 1 1 1 0 0 0 0 0.

Definition isLeap (year : Z) : bool :=
  (year mod 4 =? 0) && (negb (year mod 100 =? 0) || (year mod 400 =? 0)).

Definition daysBefore : list Z :=
  [0; 31; 59; 90; 120; 151; 181; 212; 243; 273; 304; 334; 365].

Definition daysIn (m year : Z) : Z :=
  if (m =? 2) && isLeap year then 29
  else nth (Z.to_nat m) daysBefore 0 - nth (Z.to_nat (m - 1)) daysBefore 0.

Fixpoint zeros (n : nat) : string :=
  match n with
  | O => EmptyString
  | S n' => String "0" (zeros n')
  end.

(** [appendInt(b, x, width)]: the decimal form of [x], padded with zeros
    to [width] digits, after a minus sign when [x] is negative. *)
Definition appendInt (x : Z) (width : nat) : string :=
  let digits := strconv.formatBits 20 (Z.abs x) "" in
  (if x <? 0 then "-" else "")
    +:+ zeros (width - String.length digits) +:+ digits.

(** [t.Format(time.RFC3339)], layout ["2006-01-02T15:04:05Z07:00"]: no
    chunk of the layout prints the nanoseconds, and the zone chunk prints
    whole minutes of the offset. *)
Definition Format (t : Time) : string :=
  appendInt (Year t) 4 +:+ "-" +:+ appendInt (Month t) 2 +:+ "-"
    +:+ appendInt (Day t) 2 +:+ "T" +:+ appendInt (Hour t) 2 +:+ ":"
    +:+ appendInt (Minute t) 2 +:+ ":" +:+ appendInt (Second t) 2
    +:+ (if Offset t =? 0 then "Z"
         else
           let zone := Z.quot (Offset t) 60 in
           (if zone <? 0 then "-" else "+")
             +:+ appendInt (Z.abs zone / 60) 2 +:+ ":"
             +:+ appendInt (Z.abs zone mod 60) 2).

Definition isDigit (c : ascii) : bool :=
  match strconv.digit_val c with Some _ => true | None => false end.

(** [getnum(s, fixed)]: one or two leading digits; two are required when
    [fixed]. *)
Definition getnum (s : string) (fixed : bool) : outcome (Z * string) :=
  match s with
  | EmptyString => Err ErrTimeParse
  | String c0 s1 =>
      match strconv.digit_val c0 with
      | None => Err ErrTimeParse
      | Some d0 =>
          match s1 with
          | EmptyString => if fixed then Err ErrTimeParse else Ok (d0, s1)
          | String c1 s2 =>
              match strconv.digit_val c1 with
              | None => if fixed then Err ErrTimeParse else Ok (d0, s1)
              | Some d1 => Ok (d0 * 10 + d1, s2)
              end
          end
      end
  end.

(** [skip(value, prefix)] for a literal [prefix] of one byte. *)
Definition skip (value : string) (prefix : ascii) : outcome string :=
  match value with
  | EmptyString => Err ErrTimeParse
  | String c value' => if Ascii.eqb c prefix then Ok value' else Err ErrTimeParse
  end.

(** The digits of [leadingInt]; [atoi] fails unless they are all of [s]. *)
Fixpoint allDigits (s : string) (x : Z) : outcome Z :=
  match s with
  | EmptyString => Ok x
  | String c s' =>
      match strconv.digit_val c with
      | None => Err ErrTimeParse
      | Some d => allDigits s' (x * 10 + d)
      end
  end.

Definition atoi (s : string) : outcome Z :=
  match s with
  | String "-" s' => x ← allDigits s' 0; Ok (- x)
  | String "+" s' => allDigits s' 0
  | _ => allDigits s 0
  end.

(** The longest run of digits at the head of [s], and what follows it. *)
Fixpoint spanDigits (s : string) : string * string :=
  match s with
  | EmptyString => (EmptyString, EmptyString)
  | String c s' =>
      if isDigit c then let '(ds, rest) := spanDigits s' in (String c ds, rest)
      else (EmptyString, s)
  end.

(** [commaOrPeriod(b)]: the two separators of a fraction of a second. *)
Definition commaOrPeriod (c : ascii) : bool := Ascii.eqb c "." || Ascii.eqb c ",".

(** [parseNanoseconds(value, nbytes)] on [value = sep ++ digits ++ ...],
    where [nbytes] is one more than the number of digits: the separator is
    a comma or a period; [value] is cut to ten bytes, so the digits after
    the ninth are dropped; fewer than nine digits are scaled to
    nanoseconds. *)
Definition parseNanoseconds (sep : ascii) (digits : string) : outcome Z :=
  if negb (commaOrPeriod sep) then Err ErrTimeParse
  else
    let digits := String.substring 0 9 digits in
    ns ← atoi digits;
    if ns <? 0 then Err ErrTimeParse
    else Ok (ns * 10 ^ Z.of_nat (9 - String.length digits)).

(** The fractional second that [Parse] accepts after the seconds although
    the layout has none: a comma or a period, then at least one digit. *)
Definition parseFraction (value : string) : outcome (Z * string) :=
  match value with
  | String sep (String c _ as tl) =>
      if commaOrPeriod sep && isDigit c then
        let '(digits, rest) := spanDigits tl in
        nsec ← parseNanoseconds sep digits; Ok (nsec, rest)
      else Ok (0, value)
  | _ => Ok (0, value)
  end.

(** The zone chunk [Z07:00]: the letter [Z], or a sign, two digits of
    hours, a colon and two digits of minutes (the seconds of this chunk are
    the text ["00"]). The range tests are [hr > 24] and [mm > 60]: an offset
    of 24 hours or of 60 minutes is accepted. *)
Definition parseZone (value : string) : outcome (Z * string) :=
  match value with
  | String "Z" value' => Ok (0, value')
  | String sign (String h0 (String h1 (String colon (String m0 (String m1 value'))))) =>
      if negb (Ascii.eqb colon ":") then Err ErrTimeParse
      else
        '(hr, _) ← getnum (String h0 (String h1 EmptyString)) true;
        '(mm, _) ← getnum (String m0 (String m1 EmptyString)) true;
        if (24 <? hr) || (60 <? mm) then Err ErrTimeParse
        else
          let zoneOffset := (hr * 60 + mm) * 60 in
          if Ascii.eqb sign "+" then Ok (zoneOffset, value')
          else if Ascii.eqb sign "-" then Ok (- zoneOffset, value')
          else Err ErrTimeParse
  | _ => Err ErrTimeParse
  end.

(** [time.Parse(time.RFC3339, value)], chunk by chunk of the layout, as
    the releases of Go from 1.20 on read them: a comma can stand for the
    period of a fraction, the digits of a fraction after the ninth are
    dropped, and the offset of the zone is tested for its range. What the
    fast path for this layout accepts is accepted here, with the same
    result. *)
Definition Parse (value : string) : outcome Time :=
  match value with
  | String c0 (String c1 (String c2 (String c3 value))) =>
      if negb (isDigit c0) then Err ErrTimeParse
      else
        year ← atoi (String c0 (String c1 (String c2 (String c3 EmptyString))));
        value ← skip value "-";
        '(month, value) ← getnum value true;
        if (month <=? 0) || (12 <? month) then Err ErrTimeParse
        else
          value ← skip value "-";
          '(day, value) ← getnum value true;
          value ← skip value "T";
          '(hour, value) ← getnum value false;
          if 24 <=? hour then Err ErrTimeParse
          else
            value ← skip value ":";
            '(min, value) ← getnum value true;
            if 60 <=? min then Err ErrTimeParse
            else
              value ← skip value ":";
              '(sec, value) ← getnum value true;
              if 60 <=? sec then Err ErrTimeParse
              else
                '(nsec, value) ← parseFraction value;
                '(zoneOffset, value) ← parseZone value;
                match value with
                | String _ _ => Err ErrTimeParse
                | EmptyString =>
                    if (day <? 1) || (daysIn month year <? day) then Err ErrTimeParse
                    else Ok (mkTime year month day hour min sec nsec zoneOffset)
                end
  | _ => Err ErrTimeParse
  end.

(** The readings of a [time.Time] are a date of the calendar, a time of
    the day with its nanoseconds, and an offset of less than a day. *)
Definition valid (t : Time) : bool :=
  (1 <=? Month t) && (Month t <=? 12)
  && (1 <=? Day t) && (Day t <=? daysIn (Month t) (Year t))
  && (0 <=? Hour t) && (Hour t <? 24)
  && (0 <=? Minute t) && (Minute t <? 60)
  && (0 <=? Second t) && (Second t <? 60)
  && (0 <=? Nanosecond t) && (Nanosecond t <? 1000000000)
  && (-86400 <? Offset t) && (Offset t <? 86400).

(** The times that the layout can hold: a year of four digits, no
    fraction of a second, an offset of whole minutes. *)
Definition in_layout (t : Time) : bool :=
  (0 <=? Year t) && (Year t <=? 9999)
  && (Nanosecond t =? 0) && (Offset t mod 60 =? 0).

End time.

(** ** Go's [encoding/base64]: the two unpadded encodings *)

Module base64.

Definition encodeStd : string :=
  "ABCDEFGHIJKLMNOPQRSTUVWXYZabcdefghijklmnopqrstuvwxyz0123456789+/".
Definition encodeURL : string :=
  "ABCDEFGHIJKLMNOPQRSTUVWXYZabcdefghijklmnopqrstuvwxyz0123456789-_".

(** An [Encoding] without padding and without strict mode is its alphabet:
    [RawStdEncoding] and [RawURLEncoding]. *)
Definition RawStdEncoding : string := encodeStd.
Definition RawURLEncoding : string := encodeURL.

(** [enc.encode[i]] *)
Definition symbol (enc : string) (i : Z) : ascii :=
  match String.get (Z.to_nat i) enc with
  | Some c => c
  | None => "000"%char
  end.

(** [enc.decodeMap[c]]: the index of [c] in the alphabet, [None] for the
    entries that hold [0xff]. *)
Fixpoint indexOf (c : ascii) (enc : string) (i : Z) : option Z :=
  match enc with
  | EmptyString => None
  | String c' enc' => if Ascii.eqb c c' then Some i else indexOf c enc' (i + 1)
  end.

Definition decodeMap (enc : string) (c : ascii) : option Z := indexOf c enc 0.

(** [enc.EncodeToString(src)]: three bytes give four symbols; one or two
    remaining bytes give two or three symbols, without padding. *)
Fixpoint EncodeToString (enc : string) (src : list Z) : string :=
  match src with
  | [] => EmptyString
  | [b0] =>
      let val := Z.shiftl b0 16 in
      String (symbol enc (Z.land (Z.shiftr val 18) 63))
        (String (symbol enc (Z.land (Z.shiftr val 12) 63)) EmptyString)
  | [b0; b1] =>
      let val := Z.lor (Z.shiftl b0 16) (Z.shiftl b1 8) in
      String (symbol enc (Z.land (Z.shiftr val 18) 63))
        (String (symbol enc (Z.land (Z.shiftr val 12) 63))
           (String (symbol enc (Z.land (Z.shiftr val 6) 63)) EmptyString))
  | b0 :: b1 :: b2 :: src' =>
      let val := Z.lor (Z.lor (Z.shiftl b0 16) (Z.shiftl b1 8)) b2 in
      String (symbol enc (Z.land (Z.shiftr val 18) 63))
        (String (symbol enc (Z.land (Z.shiftr val 12) 63))
           (String (symbol enc (Z.land (Z.shiftr val 6) 63))
              (String (symbol enc (Z.land val 63))
                 (EncodeToString enc src'))))
  end.

(** The bytes of one quantum of [dlen] symbols ([dbuf] padded with 0). *)
Definition quantum (d0 d1 d2 d3 : Z) (dlen : nat) : list Z :=
  let val := Z.lor (Z.lor (Z.lor (Z.shiftl d0 18) (Z.shiftl d1 12)) (Z.shiftl d2 6)) d3 in
  firstn (dlen - 1)
    [Z.land (Z.shiftr val 16) 255; Z.land (Z.shiftr val 8) 255; Z.land val 255].

(** [enc.DecodeString(s)], quantum by quantum: [dbuf] holds the symbols of
    the current quantum. A byte outside the alphabet is skipped when it is
    a line break and is a [CorruptInputError] otherwise (there is no
    padding character); so is a last quantum of one symbol. The offset
    that the error carries is not modelled. *)
Fixpoint decode (enc : string) (src : string) (dbuf : list Z) : outcome (list Z) :=
  match src with
  | EmptyString =>
      match dbuf with
      | [] => Ok []
      | [d0; d1] => Ok (quantum d0 d1 0 0 2)
      | [d0; d1; d2] => Ok (quantum d0 d1 d2 0 3)
      | _ => Err ErrCorruptInput
      end
  | String c src' =>
      match decodeMap enc c with
      | Some out =>
          match dbuf with
          | [d0; d1; d2] => dst ← decode enc src' []; Ok (quantum d0 d1 d2 out 4 ++ dst)%list
          | _ => decode enc src' (dbuf ++ [out])%list
          end
      | None =>
          if Ascii.eqb c "010" || Ascii.eqb c "013" then decode enc src' dbuf
          else Err ErrCorruptInput
      end
  end.

Definition DecodeString (enc : string) (s : string) : outcome (list Z) :=
  decode enc s [].

End base64.

(** ** The typed values *)

(** The seven types that implement [EtcdValue], and what each one holds:
    [EtcdTime] a [time.Time], [EtcdUuid] and [EtcdString] a string, [EtcdInt]
    an [int64], [EtcdUint] a [uint64], [EtcdBool] a [bool], [EtcdBytes] a
    [[]byte] (each byte a [Z] below 256). *)
Inductive etcd_type : Type :=
| EtcdTime | EtcdUuid | EtcdString | EtcdInt | EtcdUint | EtcdBool | EtcdBytes.

Definition carrier (T : etcd_type) : Type :=
  match T with
  | EtcdTime => time.Time
  | EtcdUuid | EtcdString => string
  | EtcdInt | EtcdUint => Z
  | EtcdBool => bool
  | EtcdBytes => list Z
  end.

(** The zero value of each type: the content of the package variables
    [getTimeOp], [deleteTimeOp], ..., which the package never assigns. *)
Definition zero_value (T : etcd_type) : carrier T :=
  match T with
  | EtcdTime => time.zero
  | EtcdUuid | EtcdString => EmptyString
  | EtcdInt | EtcdUint => 0
  | EtcdBool => false
  | EtcdBytes => []
  end.

(** A pointer [*T] is compared by the methods with the addresses of the two
    package variables of its type, and with nil. It is nil, one of these two
    addresses, or the address of another variable, allocated by a [Set...]
    constructor or by [reflect.New], whose content it carries. *)
Inductive ptr (A : Type) : Type :=
| PNil
| PGetOp
| PDeleteOp
| PNew (a : A).

Arguments PNil {A}.
Arguments PGetOp {A}.
Arguments PDeleteOp {A}.
Arguments PNew {A} a.

(** The three intent methods have the same body for the seven receiver
    types: [e == &getOp], [e != &deleteOp && e != nil], [e == &deleteOp]. *)
Definition IsGet {A : Type} (e : ptr A) : bool :=
  match e with PGetOp => true | _ => false end.

Definition IsDelete {A : Type} (e : ptr A) : bool :=
  match e with PDeleteOp => true | _ => false end.

Definition IsSet {A : Type} (e : ptr A) : bool :=
  negb (match e with PDeleteOp => true | _ => false end)
  && negb (match e with PNil => true | _ => false end).

(** [*e]: a nil pointer dereference panics. *)
Definition load (T : etcd_type) (e : ptr (carrier T)) : outcome (carrier T) :=
  match e with
  | PNil => Panic
  | PGetOp | PDeleteOp => Ok (zero_value T)
  | PNew a => Ok a
  end.

(** [ToString]: the methods of [EtcdInt] and [EtcdBool] have no nil check. *)
Definition ToString (T : etcd_type) : ptr (carrier T) -> outcome string :=
  match T return ptr (carrier T) -> outcome string with
  | EtcdTime => fun e =>
      match e with PNil => Ok EmptyString | _ => t ← load EtcdTime e; Ok (time.Format t) end
  | EtcdUuid => fun e =>
      match e with PNil => Ok EmptyString | _ => load EtcdUuid e end
  | EtcdString => fun e =>
      match e with PNil => Ok EmptyString | _ => load EtcdString e end
  | EtcdInt => fun e => i ← load EtcdInt e; Ok (strconv.FormatInt i)
  | EtcdUint => fun e =>
      match e with PNil => Ok EmptyString | _ => u ← load EtcdUint e; Ok (strconv.FormatUint u) end
  | EtcdBool => fun e => b ← load EtcdBool e; Ok (strconv.FormatBool b)
  | EtcdBytes => fun e =>
      match e with
      | PNil => Ok EmptyString
      | _ => b ← load EtcdBytes e; Ok (base64.EncodeToString base64.RawURLEncoding b)
      end
  end.

(** [FromString] on a receiver that is not nil: the value assigned to [*e],
    or the error returned, in which case [*e] is left as it was. *)
Definition FromString (T : etcd_type) (value : string) : outcome (carrier T) :=
  match T return outcome (carrier T) with
  | EtcdTime => time.Parse value
  | EtcdUuid => Ok value
  | EtcdString => Ok value
  | EtcdInt => strconv.ParseInt value
  | EtcdUint => strconv.ParseUint value
  | EtcdBool => strconv.ParseBool value
  | EtcdBytes => base64.DecodeString base64.RawStdEncoding value
  end.

(** The values of each type: an [int64], a [uint64], bytes, a valid time. *)
Definition in_domain (T : etcd_type) : carrier T -> Prop :=
  match T return carrier T -> Prop with
  | EtcdTime => fun t => time.valid t = true
  | EtcdUuid | EtcdString => fun _ => True
  | EtcdInt => fun i => - 2 ^ 63 <= i < 2 ^ 63
  | EtcdUint => fun u => 0 <= u < 2 ^ 64
  | EtcdBool => fun _ => True
  | EtcdBytes => fun b => Forall (fun x => 0 <= x < 256) b
  end.

(** The values that the text of their type can hold: all of them, except
    for the time type. *)
Definition in_layout_domain (T : etcd_type) : carrier T -> Prop :=
  match T return carrier T -> Prop with
  | EtcdTime => fun t => time.in_layout t = true
  | _ => fun _ => True
  end.

(** The constructors: [Get...] and [Delete...] return the address of the
    package variable, [Set...] the address of a new variable. *)
Definition GetTime : ptr time.Time := PGetOp.
Definition DeleteTime : ptr time.Time := PDeleteOp.
Definition SetTime (t : time.Time) : ptr time.Time := PNew t.
Definition GetUuid : ptr string := PGetOp.
Definition DeleteUuid : ptr string := PDeleteOp.
Definition SetUuid (u : string) : ptr string := PNew u.
Definition GetString : ptr string := PGetOp.
Definition DeleteString : ptr string := PDeleteOp.
Definition SetString (s : string) : ptr string := PNew s.
Definition GetInt : ptr Z := PGetOp.
Definition DeleteInt : ptr Z := PDeleteOp.
Definition SetInt (i : Z) : ptr Z := PNew i.
Definition GetUint : ptr Z := PGetOp.
Definition DeleteUint : ptr Z := PDeleteOp.
Definition SetUint (u : Z) : ptr Z := PNew u.
Definition GetBool : ptr bool := PGetOp.
Definition DeleteBool : ptr bool := PDeleteOp.
Definition SetBool (b : bool) : ptr bool := PNew b.
Definition GetBytes : ptr (list Z) := PGetOp.
Definition DeleteBytes : ptr (list Z) := PDeleteOp.
Definition SetBytes (b : list Z) : ptr (list Z) := PNew b.

(** ** Records, operations, responses *)

(** What [reflect] shows of a value: a pointer whose type implements
    [EtcdValue]; a struct, each field with the result of looking up the tag
    [path] and with its value; a slice; or a value of any other kind. The
    fields are exported ones ([Interface()] panics on the others). *)
#[warnings="-register-all"] Inductive Value : Type :=
| VPtr (T : etcd_type) (e : ptr (carrier T))
| VStruct (fields : list (option string * Value))
| VSlice (elems : list Value)
| VOther.

(** The operations built with [clientv3.OpGet], [OpPut] and [OpDelete],
    with or without [clientv3.WithPrefix()]. *)
Inductive Op : Type :=
| OpGet (key : string)
| OpGetPrefix (key : string)
| OpPut (key val : string)
| OpDelete (key : string)
| OpDeletePrefix (key : string).

(** An [etcdserverpb.ResponseOp]; [Kvs] as pairs of key and value. *)
Inductive ResponseOp : Type :=
| ResponseRange (Kvs : list (string * string))
| ResponsePut
| ResponseDeleteRange.

(** A response callback is a closure over the field it assigns: the field
    is named by its position [loc] from the root record, one index for each
    level of nesting; [T] is the type the field, or the element of the
    slice, points to. *)
Inductive callback : Type :=
| FieldCallback (loc : list nat) (T : etcd_type)
| SliceCallback (loc : list nat) (T : etcd_type).

Abbreviation pathvars := (gmap string string).

(** ** The record walker: read path *)

(** [createSliceGetOps]: only the first element is looked at. *)
Definition createSliceGetOps (elems : list Value) (loc : list nat)
    (etcdKey : string) (inslice : bool) : outcome (list Op * list callback) :=
  match elems with
  | [] => Ok ([], [])
  | field :: _ =>
      let etcdKey := etcdKey +:+ "/" in
      match field with
      | VPtr T e =>
          if IsGet e then Ok ([OpGetPrefix etcdKey], [SliceCallback loc T])
          else Ok ([], [])
      | _ => Err ErrSliceType
      end
  end.

(** [createStructGetOps]: the loop over the fields threads the variable
    table, which the nested calls share and assign; the table after the walk
    is returned with the operations. [NumField] panics on a value that is
    not a struct. *)
Fixpoint createStructGetOps (value : Value) (loc : list nat) (pathvar : pathvars)
    (inslice : bool) {struct value} : outcome (list Op * list callback * pathvars) :=
  match value with
  | VStruct fields =>
      (fix range (fields : list (option string * Value)) (i : nat)
           (pathvar : pathvars) (etcdOps : list Op) (callbacks : list callback)
           {struct fields} : outcome (list Op * list callback * pathvars) :=
         match fields with
         | [] => Ok (etcdOps, callbacks, pathvar)
         | (None, _) :: fields' => range fields' (S i) pathvar etcdOps callbacks
         | (Some tag, field) :: fields' =>
             match pathReplace tag pathvar inslice with
             | Ok etcdKey =>
                 match field with
                 | VPtr T e =>
                     if IsGet e
                     then range fields' (S i) pathvar
                            (etcdOps ++ [OpGet etcdKey])%list
                            (callbacks ++ [FieldCallback (loc ++ [i]) T])%list
                     else range fields' (S i) pathvar etcdOps callbacks
                 | VStruct _ =>
                     let pathvar := <["@" := etcdKey]> pathvar in
                     match createStructGetOps field (loc ++ [i])%list pathvar inslice with
                     | Ok (newOps, newCallbacks, pathvar) =>
                         range fields' (S i) pathvar
                           (etcdOps ++ newOps)%list (callbacks ++ newCallbacks)%list
                     | Err e => Err e
                     | Panic => Panic
                     end
                 | VSlice elems =>
                     let pathvar := <["@" := etcdKey]> pathvar in
                     match createSliceGetOps elems (loc ++ [i])%list etcdKey true with
                     | Ok (newOps, newCallbacks) =>
                         range fields' (S i) pathvar
                           (etcdOps ++ newOps)%list (callbacks ++ newCallbacks)%list
                     | Err e => Err e
                     | Panic => Panic
                     end
                 | VOther => range fields' (S i) pathvar etcdOps callbacks
                 end
             | Err e => Err e
             | Panic => Panic
             end
         end) fields 0%nat pathvar [] []
  | _ => Panic
  end.

(** ** Applying the responses *)

(** [field.Set(v)] for the field at [loc] of the record [root]. *)
Fixpoint set_at (loc : list nat) (v : Value) (root : Value) : Value :=
  match loc with
  | [] => v
  | i :: loc' =>
      match root with
      | VStruct fields => VStruct (alter (prod_map id (set_at loc' v)) i fields)
      | _ => root
      end
  end.

(** The callback of a leaf: the field first receives a new zero value; an
    empty response makes it nil; otherwise the first value is parsed into
    the new variable. [GetResponseRange()] is nil for a response of another
    kind, and reading [Kvs] from it panics. *)
Definition FieldCallback_call (loc : list nat) (T : etcd_type)
    (resp : ResponseOp) (root : Value) : outcome unit * Value :=
  let root := set_at loc (VPtr T (PNew (zero_value T))) root in
  match resp with
  | ResponseRange [] => (Ok (), set_at loc (VPtr T PNil) root)
  | ResponseRange ((_, etcdVal) :: _) =>
      match FromString T etcdVal with
      | Ok a => (Ok (), set_at loc (VPtr T (PNew a)) root)
      | Err e => (Err e, root)
      | Panic => (Panic, root)
      end
  | _ => (Panic, root)
  end.

(** The loop of the callback of a slice: [elems] is the slice so far. *)
Fixpoint SliceCallback_fill (T : etcd_type) (Kvs : list (string * string))
    (elems : list Value) : outcome unit * list Value :=
  match Kvs with
  | [] => (Ok (), elems)
  | (_, etcdVal) :: Kvs' =>
      match FromString T etcdVal with
      | Ok a => SliceCallback_fill T Kvs' (elems ++ [VPtr T (PNew a)])%list
      | Err e => (Err e, elems)
      | Panic => (Panic, elems)
      end
  end.

(** The callback of a slice: the field is cut to no elements and receives
    one new element for each entry of the response. Each slice is held by
    its elements: that [Slice(0, 0)] keeps the backing array and
    [reflect.Append] writes into it, which another slice on the same array,
    or the array on which the slice was made, would see, is outside of this
    model. *)
Definition SliceCallback_call (loc : list nat) (T : etcd_type)
    (resp : ResponseOp) (root : Value) : outcome unit * Value :=
  match resp with
  | ResponseRange Kvs =>
      let '(err, elems) := SliceCallback_fill T Kvs [] in
      (err, set_at loc (VSlice elems) root)
  | _ => (Panic, set_at loc (VSlice []) root)
  end.

Definition call (cb : callback) (resp : ResponseOp) (root : Value)
    : outcome unit * Value :=
  match cb with
  | FieldCallback loc T => FieldCallback_call loc T resp root
  | SliceCallback loc T => SliceCallback_call loc T resp root
  end.

(** The last loop of [Get]: [callbacks[i](r)] for each response in order;
    the first error ends it, as "Invalid data for field type". *)
Fixpoint applyResponses (Responses : list ResponseOp) (callbacks : list callback)
    (root : Value) : outcome unit * Value :=
  match Responses with
  | [] => (Ok (), root)
  | r :: Responses' =>
      match callbacks with
      | [] => (Panic, root)
      | cb :: callbacks' =>
          match call cb r root with
          | (Ok _, root) => applyResponses Responses' callbacks' root
          | (Err _, root) => (Err ErrInvalidData, root)
          | (Panic, root) => (Panic, root)
          end
      end
  end.

(** ** The arguments of [Get] and [Set] *)

(** The [interface{}] argument: a pointer to a value, a nil pointer, or
    anything that is not a pointer (the nil interface included). *)
Inductive arg : Type :=
| ArgPtr (target : Value)
| ArgNilPtr
| ArgNotPtr.

(** A [map[string]string]: nil, or a map that can be assigned. *)
Inductive gomap : Type :=
| NilMap
| Map (m : pathvars).

Section Store.

(** The store is outside the package: [Commit ops] is what
    [c.client.Txn(ctx).If().Then(ops...).Commit()] returns, the list
    [resp.Responses] or an error. *)
Variable Commit : list Op -> outcome (list ResponseOp).

(** [uuid_New n] is the text of the identifier that the [n]-th call of
    [uuid.New()] returns in this run; [GenerateUniqueID] advances the
    count. *)
Variable uuid_New : nat -> string.

Definition GenerateUniqueID (n : nat) : string * nat := (uuid_New n, S n).

(** [Get]: the result, and the argument after the call. Assigning to an
    entry of a nil map panics. *)
Definition store_Get (g : arg) (pathvar : gomap) : outcome unit * arg :=
  match g with
  | ArgNotPtr => (Err ErrNotPointer, g)
  | ArgNilPtr => (Err ErrNotStruct, g)
  | ArgPtr (VStruct _ as value) =>
      match pathvar with
      | NilMap => (Panic, g)
      | Map m =>
          let pathvar := <["@" := ""]> m in
          match createStructGetOps value [] pathvar false with
          | Ok (etcdOps, callbacks, _) =>
              match Commit etcdOps with
              | Ok Responses =>
                  if negb (length Responses =? length callbacks)%nat
                  then (Err ErrResponses, g)
                  else
                    let '(err, value) := applyResponses Responses callbacks value in
                    (err, ArgPtr value)
              | Err e => (Err e, g)
              | Panic => (Panic, g)
              end
          | Err e => (Err e, g)
          | Panic => (Panic, g)
          end
      end
  | ArgPtr _ => (Err ErrNotStruct, g)
  end.

(** ** The record walker: write path *)

(** The loop of [createSliceSetOps]: [etcdKey] is assigned in the loop,
    so each new key extends the one before. *)
Fixpoint createSliceSetOps_range (elems : list Value) (etcdKey : string)
    (etcdOps : list Op) (n : nat) : outcome (list Op * nat) :=
  match elems with
  | [] => Ok (etcdOps, n)
  | field :: elems' =>
      match field with
      | VPtr T e =>
          if IsSet e then
            let '(id, n) := GenerateUniqueID n in
            let etcdKey := etcdKey +:+ "/" +:+ id in
            val ← ToString T e;
            createSliceSetOps_range elems' etcdKey (etcdOps ++ [OpPut etcdKey val])%list n
          else createSliceSetOps_range elems' etcdKey etcdOps n
      | VStruct _ => Err ErrSliceOfStructs
      | _ => createSliceSetOps_range elems' etcdKey etcdOps n
      end
  end.

Definition createSliceSetOps (elems : list Value) (etcdKey : string)
    (inslice : bool) (n : nat) : outcome (list Op * nat) :=
  match elems with
  | [VPtr T e] =>
      if IsDelete e then Ok ([OpDeletePrefix (etcdKey +:+ "/")], n)
      else createSliceSetOps_range elems etcdKey [] n
  | _ => createSliceSetOps_range elems etcdKey [] n
  end.

(** The two branches of a leaf on the write path. *)
Definition leafSetOps (T : etcd_type) (e : ptr (carrier T)) (etcdKey : string)
    : outcome (list Op) :=
  if IsDelete e then Ok [OpDelete etcdKey]
  else if IsSet e then val ← ToString T e; Ok [OpPut etcdKey val]
  else Ok [].

(** [createStructSetOps]: as on the read path the variable table is
    shared with the nested calls; a slice field does not assign it. *)
Fixpoint createStructSetOps (value : Value) (pathvar : pathvars) (inslice : bool)
    (n : nat) {struct value} : outcome (list Op * pathvars * nat) :=
  match value with
  | VStruct fields =>
      (fix range (fields : list (option string * Value)) (pathvar : pathvars)
           (etcdOps : list Op) (n : nat) {struct fields}
         : outcome (list Op * pathvars * nat) :=
         match fields with
         | [] => Ok (etcdOps, pathvar, n)
         | (None, _) :: fields' => range fields' pathvar etcdOps n
         | (Some tag, field) :: fields' =>
             match pathReplace tag pathvar inslice with
             | Ok etcdKey =>
                 match field with
                 | VPtr T e =>
                     match leafSetOps T e etcdKey with
                     | Ok newOps => range fields' pathvar (etcdOps ++ newOps)%list n
                     | Err e => Err e
                     | Panic => Panic
                     end
                 | VStruct _ =>
                     let pathvar := <["@" := etcdKey]> pathvar in
                     match createStructSetOps field pathvar inslice n with
                     | Ok (newOps, pathvar, n) =>
                         range fields' pathvar (etcdOps ++ newOps)%list n
                     | Err e => Err e
                     | Panic => Panic
                     end
                 | VSlice elems =>
                     match createSliceSetOps elems etcdKey true n with
                     | Ok (newOps, n) => range fields' pathvar (etcdOps ++ newOps)%list n
                     | Err e => Err e
                     | Panic => Panic
                     end
                 | VOther => range fields' pathvar etcdOps n
                 end
             | Err e => Err e
             | Panic => Panic
             end
         end) fields pathvar [] n
  | _ => Panic
  end.

(** [Set] does not assign the record; [n] identifiers were generated
    before the call. *)
Definition store_Set (s : arg) (pathvar : gomap) (n : nat) : outcome unit :=
  match s with
  | ArgNotPtr => Err ErrNotPointer
  | ArgNilPtr => Err ErrNotStruct
  | ArgPtr (VStruct _ as value) =>
      match pathvar with
      | NilMap => Panic
      | Map m =>
          let pathvar := <["@" := ""]> m in
          '(etcdOps, _, _) ← createStructSetOps value pathvar false n;
          Responses ← Commit etcdOps;
          if negb (length Responses =? length etcdOps)%nat then Err ErrResponses
          else Ok ()
      end
  | ArgPtr _ => Err ErrNotStruct
  end.

End Store.

(** ** The loops of the walkers as functions of their own

    The loop over the fields of [createStructGetOps] and of
    [createStructSetOps], stated apart from the function it belongs to: the
    same body, started at any field index, table and list of operations. It
    is what the properties of the walkers are proved on
    ([createStructGetOps_unfold], [createStructSetOps_unfold]). *)

Fixpoint createStructGetOps_range (fields : list (option string * Value))
    (i : nat) (loc : list nat) (pathvar : pathvars) (inslice : bool)
    (etcdOps : list Op) (callbacks : list callback)
    : outcome (list Op * list callback * pathvars) :=
  match fields with
  | [] => Ok (etcdOps, callbacks, pathvar)
  | (None, _) :: fields' =>
      createStructGetOps_range fields' (S i) loc pathvar inslice etcdOps callbacks
  | (Some tag, field) :: fields' =>
      match pathReplace tag pathvar inslice with
      | Ok etcdKey =>
          match field with
          | VPtr T e =>
              if IsGet e
              then createStructGetOps_range fields' (S i) loc pathvar inslice
                     (etcdOps ++ [OpGet etcdKey])%list
                     (callbacks ++ [FieldCallback (loc ++ [i]) T])%list
              else createStructGetOps_range fields' (S i) loc pathvar inslice
                     etcdOps callbacks
          | VStruct _ =>
              let pathvar := <["@" := etcdKey]> pathvar in
              match createStructGetOps field (loc ++ [i])%list pathvar inslice with
              | Ok (newOps, newCallbacks, pathvar) =>
                  createStructGetOps_range fields' (S i) loc pathvar inslice
                    (etcdOps ++ newOps)%list (callbacks ++ newCallbacks)%list
              | Err e => Err e
              | Panic => Panic
              end
          | VSlice elems =>
              let pathvar := <["@" := etcdKey]> pathvar in
              match createSliceGetOps elems (loc ++ [i])%list etcdKey true with
              | Ok (newOps, newCallbacks) =>
                  createStructGetOps_range fields' (S i) loc pathvar inslice
                    (etcdOps ++ newOps)%list (callbacks ++ newCallbacks)%list
              | Err e => Err e
              | Panic => Panic
              end
          | VOther =>
              createStructGetOps_range fields' (S i) loc pathvar inslice
                etcdOps callbacks
          end
      | Err e => Err e
      | Panic => Panic
      end
  end.

Fixpoint createStructSetOps_range (uuid_New : nat -> string)
    (fields : list (option string * Value)) (pathvar : pathvars)
    (inslice : bool) (etcdOps : list Op) (n : nat)
    : outcome (list Op * pathvars * nat) :=
  match fields with
  | [] => Ok (etcdOps, pathvar, n)
  | (None, _) :: fields' =>
      createStructSetOps_range uuid_New fields' pathvar inslice etcdOps n
  | (Some tag, field) :: fields' =>
      match pathReplace tag pathvar inslice with
      | Ok etcdKey =>
          match field with
          | VPtr T e =>
              match leafSetOps T e etcdKey with
              | Ok newOps =>
                  createStructSetOps_range uuid_New fields' pathvar inslice
                    (etcdOps ++ newOps)%list n
              | Err e => Err e
              | Panic => Panic
              end
          | VStruct _ =>
              let pathvar := <["@" := etcdKey]> pathvar in
              match createStructSetOps uuid_New field pathvar inslice n with
              | Ok (newOps, pathvar, n) =>
                  createStructSetOps_range uuid_New fields' pathvar inslice
                    (etcdOps ++ newOps)%list n
              | Err e => Err e
              | Panic => Panic
              end
          | VSlice elems =>
              match createSliceSetOps uuid_New elems etcdKey true n with
              | Ok (newOps, n) =>
                  createStructSetOps_range uuid_New fields' pathvar inslice
                    (etcdOps ++ newOps)%list n
              | Err e => Err e
              | Panic => Panic
              end
          | VOther =>
              createStructSetOps_range uuid_New fields' pathvar inslice etcdOps n
          end
      | Err e => Err e
      | Panic => Panic
      end
  end.

(** The operations of a result of the write path. *)
Definition ops_of {S1 S2 : Type} (r : outcome (list Op * S1 * S2)) : option (list Op) :=
  match r with
  | Ok (ops, _, _) => Some ops
  | _ => None
  end.

(** [prepend_ops ops r]: the result [r] with [ops] put before its operations. *)
Definition prepend_ops {S1 S2 : Type} (ops : list Op)
    (r : outcome (list Op * S1 * S2)) : outcome (list Op * S1 * S2) :=
  match r with
  | Ok (ops', s1, s2) => Ok ((ops ++ ops')%list, s1, s2)
  | Err e => Err e
  | Panic => Panic
  end.

(** ** The records of the package's tests *)

Definition TestModel2Child (BoolKey : ptr bool) (IntKey : ptr Z) : Value :=
  VStruct [ (Some ":@/bool_key", VPtr EtcdBool BoolKey);
            (Some ":@/int_key", VPtr EtcdInt IntKey) ].

Definition TestModel2Parent (Name ID : ptr string) (Count : ptr Z) (Child : Value) : Value :=
  VStruct [ (Some "/path/:var/to/name", VPtr EtcdString Name);
            (Some "/path/:var/to/id", VPtr EtcdUuid ID);
            (Some "/path/:var/to/count_key", VPtr EtcdUint Count);
            (Some "/path/:var/to/child", Child) ].

Definition TestModel3 (Name : ptr string) (IDs : list (ptr string)) : Value :=
  VStruct [ (Some "/path/test/:var/to/name", VPtr EtcdString Name);
            (Some "/path/test/:var/to/slice", VSlice (map (VPtr EtcdUuid) IDs)) ].

(** The [Put]s of a collection in which every key extends the key before it
    by a separator and the next identifier. *)
Fixpoint chained_puts (uuid_New : nat -> string) (vals : list string)
    (etcdKey : string) (n : nat) : list Op :=
  match vals with
  | [] => []
  | v :: vals' =>
      let etcdKey := etcdKey +:+ "/" +:+ uuid_New n in
      OpPut etcdKey v :: chained_puts uuid_New vals' etcdKey (S n)
  end.

(** [occurs c s]: the byte [c] is one of the bytes of [s]. *)
Fixpoint occurs (c : ascii) (s : string) : bool :=
  match s with
  | EmptyString => false
  | String c' s' => Ascii.eqb c c' || occurs c s'
  end.

(** The segments that the loop of [pathReplace] passes: those without the
    marker, and the variables of the table, other than ["@"] inside a
    collection. *)
Definition passes (pathvars : gmap string string) (inslice : bool) (q : string) : Prop :=
  strings.HasPrefix q ":" = true ->
  (inslice = true -> q <> ":@") /\ is_Some (pathvars !! strings.TrimPrefix q ":").

(** ** The rest of [client.go], and the predicates of its properties *)

(** [validateInterface]: its one error is "cannot use not pointer structs",
    returned as its message; [None] is the nil error. [Elem()] of a nil
    pointer has the kind [Invalid], which is not [Struct]. *)
Definition validateInterface (v : arg) : option string :=
  match v with
  | ArgPtr (VStruct _) => None
  | _ => Some "cannot use not pointer structs"
  end.

(** The operations that read the store, and those that write it. *)
Definition is_read (op : Op) : bool :=
  match op with
  | OpGet _ | OpGetPrefix _ => true
  | _ => false
  end.

Definition is_write (op : Op) : bool :=
  match op with
  | OpPut _ _ | OpDelete _ | OpDeletePrefix _ => true
  | _ => false
  end.

(** A result of a walker that is not a panic. *)
Definition no_panic {A : Type} (r : outcome A) : Prop :=
  match r with
  | Panic => False
  | _ => True
  end.

(** A response to a [Get], with or without prefix. *)
Definition is_range (r : ResponseOp) : bool :=
  match r with
  | ResponseRange _ => true
  | _ => false
  end.

(** What the read path keeps, on a result: as many callbacks as
    operations, operations that only read, and a table that differs from
    the one it started with in the entry ["@"] at most. *)
Definition get_result_ok (pathvar : pathvars)
    (r : outcome (list Op * list callback * pathvars)) : Prop :=
  match r with
  | Ok (ops, cbs, pathvar') =>
      length ops = length cbs
      /\ forallb is_read ops = true
      /\ forall k, k <> "@" -> pathvar' !! k = pathvar !! k
  | Err _ => True
  | Panic => False
  end.

(** What the write path keeps, on a result: operations that only write, a
    table that differs from the one it started with in the entry ["@"] at
    most, and a count of identifiers that does not go back. *)
Definition set_result_ok (pathvar : pathvars) (n : nat)
    (r : outcome (list Op * pathvars * nat)) : Prop :=
  match r with
  | Ok (ops, pathvar', n') =>
      forallb is_write ops = true
      /\ (forall k, k <> "@" -> pathvar' !! k = pathvar !! k)
      /\ (n <= n')%nat
  | Err _ => True
  | Panic => False
  end.

(** The key, or the prefix, of an operation. *)
Definition key_of (op : Op) : string :=
  match op with
  | OpGet key | OpGetPrefix key | OpPut key _ | OpDelete key | OpDeletePrefix key => key
  end.

(** The elements that a prefix response decodes to, for the type [T]. *)
Definition decoded (T : etcd_type) (Kvs : list (string * string))
    (vals : list (carrier T)) : Prop :=
  Forall2 (fun kv a => FromString T kv.2 = Ok a) Kvs vals.

(** The field at the position [loc] of the record [root], if there is one. *)
Fixpoint get_at (loc : list nat) (root : Value) : option Value :=
  match loc with
  | [] => Some root
  | i :: loc' =>
      match root with
      | VStruct fields =>
          match fields !! i with
          | Some (_, f) => get_at loc' f
          | None => None
          end
      | _ => None
      end
  end.

(** The field that a callback assigns. *)
Definition loc_of (cb : callback) : list nat :=
  match cb with
  | FieldCallback loc _ | SliceCallback loc _ => loc
  end.

(** Two positions that part at some level: neither field is inside the
    other. *)
Definition apart (loc loc' : list nat) : Prop :=
  exists p i r j r', loc = (p ++ i :: r)%list /\ loc' = (p ++ j :: r')%list /\ i <> j.

(** A value made of leaves only: a leaf, or a record whose fields are such
    values. It holds no slice and no field of another kind (an array, a
    map, ...). *)
Fixpoint leaves_only (v : Value) : bool :=
  match v with
  | VPtr _ _ => true
  | VStruct fields => forallb (fun f => leaves_only f.2) fields
  | VSlice _ | VOther => false
  end.

(** The tags of the fields of a record, in their order: they belong to
    the type of the record. *)
Definition tags (fields : list (option string * Value)) : list (option string) :=
  map fst fields.

(** A callback whose field is inside the record at the position [loc]. *)
Definition below (loc : list nat) (cb : callback) : Prop :=
  exists i r, loc_of cb = (loc ++ i :: r)%list.

(** * Properties *)

(** ** Sanity checks of the embedding on concrete inputs *)

Example Replace_all :
  strings.Replace "/a/:x/b/:x" ":x" "5" = "/a/5/b/5".
Proof. reflexivity. Qed.

(** A replacement acts on the text of the whole path, not on segments. *)
Example pathReplace_text :
  pathReplace "/:x/:xy" {[ "x" := "5"; "xy" := "7" ]} false = Ok "/5/5y".
Proof. vm_compute. reflexivity. Qed.

Example pathReplace_nested :
  pathReplace ":@/bool_key" {[ "@" := "/path/sub/to/child" ]} false
  = Ok "/path/sub/to/child/bool_key".
Proof. vm_compute. reflexivity. Qed.

Example FormatInt_neg : strconv.FormatInt (-42) = "-42".
Proof. reflexivity. Qed.

Example ParseInt_min : strconv.ParseInt "-9223372036854775808" = Ok (- 2 ^ 63).
Proof. vm_compute. reflexivity. Qed.

Example ParseInt_over : strconv.ParseInt "9223372036854775808" = Err ErrRange.
Proof. vm_compute. reflexivity. Qed.

Example ParseUint_over : strconv.ParseUint "18446744073709551616" = Err ErrRange.
Proof. vm_compute. reflexivity. Qed.

Example Format_testTime :
  time.Format (time.mkTime 2018 8 30 12 0 0 0 0) = "2018-08-30T12:00:00Z".
Proof. vm_compute. reflexivity. Qed.

Example Format_offset :
  time.Format (time.mkTime 2018 8 30 12 0 0 0 (-12600)) = "2018-08-30T12:00:00-03:30".
Proof. vm_compute. reflexivity. Qed.

Example Parse_offset :
  time.Parse "2018-08-30T12:00:00-03:30" = Ok (time.mkTime 2018 8 30 12 0 0 0 (-12600)).
Proof. vm_compute. reflexivity. Qed.

Example Parse_fraction :
  time.Parse "2018-08-30T12:00:00.25Z" = Ok (time.mkTime 2018 8 30 12 0 0 250000000 0).
Proof. vm_compute. reflexivity. Qed.

Example Parse_bad_day : time.Parse "2019-02-29T12:00:00Z" = Err ErrTimeParse.
Proof. vm_compute. reflexivity. Qed.

Example EncodeToString_hello :
  base64.EncodeToString base64.RawStdEncoding [104; 101; 108; 108; 111] = "aGVsbG8".
Proof. vm_compute. reflexivity. Qed.

Example DecodeString_hello :
  base64.DecodeString base64.RawStdEncoding "aGVsbG8" = Ok [104; 101; 108; 108; 111].
Proof. vm_compute. reflexivity. Qed.

Example EncodeToString_url :
  base64.EncodeToString base64.RawURLEncoding [251; 255] = "-_8".
Proof. vm_compute. reflexivity. Qed.

Example DecodeString_one_symbol :
  base64.DecodeString base64.RawStdEncoding "aGVsb" = Err ErrCorruptInput.
Proof. vm_compute. reflexivity. Qed.

(** ** The loops of the walkers *)

Lemma createStructGetOps_unfold fields loc pathvar inslice :
  createStructGetOps (VStruct fields) loc pathvar inslice
  = createStructGetOps_range fields 0 loc pathvar inslice [] [].
Proof.
  simpl.
  lazymatch goal with
  | |- ?f fields 0%nat pathvar [] [] = _ =>
      enough (H : forall fs i pv ops cbs,
                 f fs i pv ops cbs
                 = createStructGetOps_range fs i loc pv inslice ops cbs)
        by apply H
  end.
  induction fs as [|[[tag|] field] fs IH]; intros i pv ops cbs; simpl.
  - reflexivity.
  - destruct (pathReplace tag pv inslice) as [etcdKey| |]; try reflexivity.
    destruct field as [T e|fs'|elems|]; try apply IH.
    + destruct (IsGet e); apply IH.
    + destruct (createStructGetOps _ _ _ _) as [[[newOps newCbs] pv']| |];
        try reflexivity; apply IH.
    + destruct (createSliceGetOps _ _ _ _) as [[newOps newCbs]| |];
        try reflexivity; apply IH.
  - apply IH.
Qed.

Lemma createStructSetOps_unfold uuid_New fields pathvar inslice n :
  createStructSetOps uuid_New (VStruct fields) pathvar inslice n
  = createStructSetOps_range uuid_New fields pathvar inslice [] n.
Proof.
  simpl.
  lazymatch goal with
  | |- ?f fields pathvar [] n = _ =>
      enough (H : forall fs pv ops k,
                 f fs pv ops k
                 = createStructSetOps_range uuid_New fs pv inslice ops k)
        by apply H
  end.
  induction fs as [|[[tag|] field] fs IH]; intros pv ops k; simpl.
  - reflexivity.
  - destruct (pathReplace tag pv inslice) as [etcdKey| |]; try reflexivity.
    destruct field as [T e|fs'|elems|]; try apply IH.
    + destruct (leafSetOps T e etcdKey); try reflexivity; apply IH.
    + destruct (createStructSetOps _ _ _ _ _) as [[[newOps pv'] k']| |];
        try reflexivity; apply IH.
    + destruct (createSliceSetOps _ _ _ _ _) as [[newOps k']| |];
        try reflexivity; apply IH.
  - apply IH.
Qed.

(** The test case [all_keys_set]: what [Set] and [Get] build. *)
Example all_keys_set_ops :
  ops_of (createStructSetOps (fun _ => "")
    (TestModel2Parent (SetString "test") (SetUuid "uuid-test") (SetUint 42)
       (TestModel2Child (SetBool true) (SetInt 42)))
    (<["@" := ""]> {[ "var" := "sub" ]}) false 0)
  = Some [ OpPut "/path/sub/to/name" "test";
           OpPut "/path/sub/to/id" "uuid-test";
           OpPut "/path/sub/to/count_key" "42";
           OpPut "/path/sub/to/child/bool_key" "true";
           OpPut "/path/sub/to/child/int_key" "42" ].
Proof. vm_compute. reflexivity. Qed.

Example all_keys_get_ops :
  (match createStructGetOps
     (TestModel2Parent GetString GetUuid GetUint (TestModel2Child GetBool GetInt))
     [] (<["@" := ""]> {[ "var" := "sub" ]}) false with
   | Ok (ops, cbs, _) => Some (ops, cbs)
   | _ => None
   end)
  = Some ([ OpGet "/path/sub/to/name"; OpGet "/path/sub/to/id";
            OpGet "/path/sub/to/count_key";
            OpGet "/path/sub/to/child/bool_key";
            OpGet "/path/sub/to/child/int_key" ],
          [ FieldCallback [0%nat] EtcdString; FieldCallback [1%nat] EtcdUuid;
            FieldCallback [2%nat] EtcdUint;
            FieldCallback [3%nat; 0%nat] EtcdBool;
            FieldCallback [3%nat; 1%nat] EtcdInt ]).
Proof. vm_compute. reflexivity. Qed.

(** The test case [partial_delete]: nil fields are skipped. *)
Example partial_delete_ops :
  ops_of (createStructSetOps (fun _ => "")
    (TestModel2Parent DeleteString PNil DeleteUint
       (TestModel2Child PNil (SetInt 44)))
    (<["@" := ""]> {[ "var" := "sub" ]}) false 0)
  = Some [ OpDelete "/path/sub/to/name";
           OpDelete "/path/sub/to/count_key";
           OpPut "/path/sub/to/child/int_key" "44" ].
Proof. vm_compute. reflexivity. Qed.

(** A whole [Get] against a store that answers the five reads. *)
Example all_keys_get_run :
  store_Get
    (fun _ => Ok [ ResponseRange [("/path/sub/to/name", "test")];
                   ResponseRange [("/path/sub/to/id", "uuid-test")];
                   ResponseRange [];
                   ResponseRange [("/path/sub/to/child/bool_key", "true")];
                   ResponseRange [("/path/sub/to/child/int_key", "42")] ])
    (ArgPtr (TestModel2Parent GetString GetUuid GetUint
               (TestModel2Child GetBool GetInt)))
    (Map {[ "var" := "sub" ]})
  = (Ok (),
     ArgPtr (TestModel2Parent (SetString "test") (SetUuid "uuid-test") PNil
               (TestModel2Child (SetBool true) (SetInt 42)))).
Proof. vm_compute. reflexivity. Qed.

(** The test case [clear_slice]. *)
Example clear_slice_ops :
  ops_of (createStructSetOps (fun _ => "")
    (TestModel3 (SetString "testName") [DeleteUuid])
    (<["@" := ""]> {[ "var" := "sub" ]}) false 0)
  = Some [ OpPut "/path/test/sub/to/name" "testName";
           OpDeletePrefix "/path/test/sub/to/slice/" ].
Proof. vm_compute. reflexivity. Qed.

(** ** C1: the three intent methods *)

(** C1, the claim as stated fails: the pointer that [GetString] returns is
    not the delete sentinel and is not nil, so [IsSet] is true of it; it does
    not report [IsGet] alone. *)
Lemma intent_fetch_counterexample :
  ~ (IsGet GetString = true /\ IsSet GetString = false /\ IsDelete GetString = false).
Proof. intros (_ & H & _). discriminate H. Qed.

(** C1, amended: a pointer from a [Set...] constructor reports [IsSet] only;
    the pointer of a [Delete...] constructor reports [IsDelete] only; the
    pointer of a [Get...] constructor reports [IsGet] and [IsSet], not
    [IsDelete]; nil reports none of the three. For every pointer, [IsSet] is
    true exactly when it is neither the delete sentinel nor nil. *)
Theorem intent_classification (A : Type) (v : A) :
  (IsSet (PNew v) = true /\ IsGet (PNew v) = false /\ IsDelete (PNew v) = false)
  /\ (IsGet (@PGetOp A) = true /\ IsSet (@PGetOp A) = true
      /\ IsDelete (@PGetOp A) = false)
  /\ (IsDelete (@PDeleteOp A) = true /\ IsGet (@PDeleteOp A) = false
      /\ IsSet (@PDeleteOp A) = false)
  /\ (IsSet (@PNil A) = false /\ IsGet (@PNil A) = false
      /\ IsDelete (@PNil A) = false)
  /\ (forall e : ptr A, IsSet e = true <-> e <> PDeleteOp /\ e <> PNil).
Proof.
  repeat match goal with |- _ /\ _ => split end; try reflexivity.
  intros e. split.
  - intros H. destruct e; try discriminate H; split; intros E; discriminate E.
  - intros [Hd Hn]. destruct e; try reflexivity; [destruct Hn | destruct Hd]; reflexivity.
Qed.

(** The constructors of the text type, as the claim names them. *)
Lemma intent_of_string_constructors (s : string) :
  (IsSet (SetString s) = true /\ IsGet (SetString s) = false
   /\ IsDelete (SetString s) = false)
  /\ (IsGet GetString = true /\ IsSet GetString = true)
  /\ (IsDelete DeleteString = true /\ IsSet DeleteString = false).
Proof. repeat split. Qed.

(** ** C9 and C2: the write path, field by field *)

Lemma createStructSetOps_range_acc uuid_New fields :
  forall pathvar inslice etcdOps n,
    createStructSetOps_range uuid_New fields pathvar inslice etcdOps n
    = prepend_ops etcdOps
        (createStructSetOps_range uuid_New fields pathvar inslice [] n).
Proof.
  induction fields as [|[[tag|] field] fields IH]; intros pathvar inslice ops n; simpl.
  - by rewrite app_nil_r.
  - destruct (pathReplace tag pathvar inslice) as [etcdKey| |]; try reflexivity.
    assert (Hstep : forall newOps pv k,
      createStructSetOps_range uuid_New fields pv inslice (ops ++ newOps)%list k
      = prepend_ops ops
          (createStructSetOps_range uuid_New fields pv inslice ([] ++ newOps)%list k)).
    { intros newOps pv k. rewrite (IH pv inslice (ops ++ newOps)%list k).
      rewrite (IH pv inslice ([] ++ newOps)%list k).
      destruct (createStructSetOps_range _ _ _ _ [] _) as [[[o p] m]| |]; simpl;
        [by rewrite app_assoc | reflexivity | reflexivity]. }
    destruct field as [T e|fs|elems|]; try apply IH.
    + destruct (leafSetOps T e etcdKey); try reflexivity; apply Hstep.
    + destruct (createStructSetOps _ _ _ _ _) as [[[newOps pv'] k']| |];
        try reflexivity; apply Hstep.
    + destruct (createSliceSetOps _ _ _ _ _) as [[newOps k']| |];
        try reflexivity; apply Hstep.
  - apply IH.
Qed.

(** A tagged leaf at the head of a record: its operations come first, and
    the rest of the record is walked with the same table. *)
Lemma createStructSetOps_leaf uuid_New tag T e fields pathvar inslice n etcdKey newOps :
  pathReplace tag pathvar inslice = Ok etcdKey ->
  leafSetOps T e etcdKey = Ok newOps ->
  createStructSetOps uuid_New (VStruct ((Some tag, VPtr T e) :: fields)) pathvar inslice n
  = prepend_ops newOps (createStructSetOps uuid_New (VStruct fields) pathvar inslice n).
Proof.
  intros Hkey Hleaf. rewrite !createStructSetOps_unfold. simpl.
  rewrite Hkey, Hleaf. apply createStructSetOps_range_acc.
Qed.

Lemma ToString_not_nil T (e : ptr (carrier T)) :
  e <> PNil -> exists val, ToString T e = Ok val.
Proof.
  intros He. destruct T, e; try congruence; simpl; eauto.
Qed.

(** C2, the claim as stated fails: a leaf that holds the fetch sentinel is
    not skipped on the write path. [IsDelete] is false and [IsSet] is true of
    it, so a [Put] of the text of the sentinel variable is built. *)
Lemma write_fetch_leaf_counterexample :
  ops_of (createStructSetOps (fun _ => "")
            (VStruct [(Some "/k", VPtr EtcdString GetString)])
            (<["@" := ""]> ∅) false 0)
  = Some [OpPut "/k" ""]
  /\ ops_of (createStructSetOps (fun _ => "")
               (VStruct [(Some "/k", VPtr EtcdString GetString)])
               (<["@" := ""]> ∅) false 0)
     <> Some [].
Proof. split; [vm_compute; reflexivity | vm_compute; discriminate]. Qed.

(** C2, amended: on the write path a tagged leaf whose key resolves gives,
    before the operations of the fields after it, no operation when its
    pointer is nil, one [Delete] of its key when it is the delete sentinel,
    and one [Put] of its key with its [ToString()] in every other case: for
    a pointer made by a [Set...] constructor and also for the fetch
    sentinel. *)
Theorem write_leaf_ops uuid_New tag T (e : ptr (carrier T)) fields pathvar inslice n etcdKey :
  pathReplace tag pathvar inslice = Ok etcdKey ->
  exists newOps,
    createStructSetOps uuid_New (VStruct ((Some tag, VPtr T e) :: fields)) pathvar inslice n
    = prepend_ops newOps
        (createStructSetOps uuid_New (VStruct fields) pathvar inslice n)
    /\ match e with
       | PNil => newOps = []
       | PDeleteOp => newOps = [OpDelete etcdKey]
       | PGetOp | PNew _ =>
           exists val, ToString T e = Ok val /\ newOps = [OpPut etcdKey val]
       end.
Proof.
  intros Hkey.
  destruct e as [| | |a].
  - exists []. split; [|reflexivity].
    by apply (createStructSetOps_leaf _ _ _ _ _ _ _ _ etcdKey).
  - destruct (ToString_not_nil T PGetOp) as [val Hval]; [discriminate|].
    exists [OpPut etcdKey val]. split; [|eauto].
    apply (createStructSetOps_leaf _ _ _ _ _ _ _ _ etcdKey); [done|].
    unfold leafSetOps. simpl IsDelete. simpl IsSet. cbv iota. by rewrite Hval.
  - exists [OpDelete etcdKey]. split; [|reflexivity].
    by apply (createStructSetOps_leaf _ _ _ _ _ _ _ _ etcdKey).
  - destruct (ToString_not_nil T (PNew a)) as [val Hval]; [discriminate|].
    exists [OpPut etcdKey val]. split; [|eauto].
    apply (createStructSetOps_leaf _ _ _ _ _ _ _ _ etcdKey); [done|].
    unfold leafSetOps. simpl IsDelete. simpl IsSet. cbv iota. by rewrite Hval.
Qed.

Lemma write_leaf_ops_witness :
  exists newOps,
    createStructSetOps (fun _ => "")
      (VStruct [(Some "/k", VPtr EtcdInt (SetInt 7)); (Some "/d", VPtr EtcdBool DeleteBool)])
      ∅ false 0
    = prepend_ops newOps
        (createStructSetOps (fun _ => "")
           (VStruct [(Some "/d", VPtr EtcdBool DeleteBool)]) ∅ false 0)
    /\ exists val, ToString EtcdInt (SetInt 7) = Ok val /\ newOps = [OpPut "/k" val].
Proof.
  apply (write_leaf_ops (fun _ => "") "/k" EtcdInt (SetInt 7)
           [(Some "/d", VPtr EtcdBool DeleteBool)] ∅ false 0%nat "/k").
  vm_compute. reflexivity.
Defined.

(** What is put for the fetch sentinel is the text of the zero value. *)
Lemma ToString_fetch_sentinel T :
  ToString T PGetOp = ToString T (PNew (zero_value T)).
Proof. destruct T; reflexivity. Qed.

(** C9: a collection of exactly one element that is the delete sentinel of
    its type gives exactly one operation for its field, the [Delete] with
    prefix of the collection's key followed by the separator. *)
Theorem clear_collection_ops uuid_New tag T (e : ptr (carrier T)) fields pathvar inslice n etcdKey :
  pathReplace tag pathvar inslice = Ok etcdKey ->
  IsDelete e = true ->
  createSliceSetOps uuid_New [VPtr T e] etcdKey true n
  = Ok ([OpDeletePrefix (etcdKey +:+ "/")], n)
  /\ createStructSetOps uuid_New (VStruct ((Some tag, VSlice [VPtr T e]) :: fields))
       pathvar inslice n
     = prepend_ops [OpDeletePrefix (etcdKey +:+ "/")]
         (createStructSetOps uuid_New (VStruct fields) pathvar inslice n).
Proof.
  intros Hkey Hdel.
  assert (Hslice : createSliceSetOps uuid_New [VPtr T e] etcdKey true n
                   = Ok ([OpDeletePrefix (etcdKey +:+ "/")], n)).
  { unfold createSliceSetOps. by rewrite Hdel. }
  split; [exact Hslice|].
  rewrite !createStructSetOps_unfold. cbn [createStructSetOps_range].
  rewrite Hkey, Hslice. apply createStructSetOps_range_acc.
Qed.

Lemma clear_collection_ops_witness :
  createSliceSetOps (fun _ => "") [VPtr EtcdUuid DeleteUuid] "/path/test/sub/to/slice" true 0
  = Ok ([OpDeletePrefix ("/path/test/sub/to/slice" +:+ "/")], 0%nat)
  /\ createStructSetOps (fun _ => "")
       (VStruct [(Some "/path/test/:var/to/slice", VSlice [VPtr EtcdUuid DeleteUuid])])
       {[ "var" := "sub" ]} false 0
     = prepend_ops [OpDeletePrefix ("/path/test/sub/to/slice" +:+ "/")]
         (createStructSetOps (fun _ => "") (VStruct []) {[ "var" := "sub" ]} false 0).
Proof.
  apply (clear_collection_ops (fun _ => "") "/path/test/:var/to/slice" EtcdUuid
           DeleteUuid [] {[ "var" := "sub" ]} false 0%nat "/path/test/sub/to/slice").
  - vm_compute. reflexivity.
  - reflexivity.
Defined.

(** ** C3: the keys of a written collection *)

(** The loop in general, on a collection of written text values: the
    operations are [chained_puts], where each key extends the one before. *)
Lemma createSliceSetOps_range_chained uuid_New (vals : list string) :
  forall etcdKey etcdOps n,
    createSliceSetOps_range uuid_New
      (map (fun v => VPtr EtcdString (SetString v)) vals) etcdKey etcdOps n
    = Ok ((etcdOps ++ chained_puts uuid_New vals etcdKey n)%list,
          (n + length vals)%nat).
Proof.
  induction vals as [|v vals IH]; intros etcdKey etcdOps n; simpl.
  - by rewrite app_nil_r, Nat.add_0_r.
  - rewrite IH, <- app_assoc, Nat.add_succ_r. reflexivity.
Qed.

(** C3, the code at a collection of two or more written elements: the loop
    assigns [etcdKey], so the key of the second element is the key of the
    first one followed by the second identifier, not the key of the
    collection followed by it, and so on for the elements after it. *)
Theorem slice_keys_accumulate uuid_New (v1 v2 : string) (vals : list string)
    (etcdKey : string) (n : nat) :
  createSliceSetOps uuid_New
    (map (fun v => VPtr EtcdString (SetString v)) (v1 :: v2 :: vals)) etcdKey true n
  = Ok (OpPut (etcdKey +:+ "/" +:+ uuid_New n) v1
          :: OpPut ((etcdKey +:+ "/" +:+ uuid_New n) +:+ "/" +:+ uuid_New (S n)) v2
          :: chained_puts uuid_New vals
               ((etcdKey +:+ "/" +:+ uuid_New n) +:+ "/" +:+ uuid_New (S n)) (S (S n)),
        (n + length (v1 :: v2 :: vals))%nat).
Proof.
  unfold createSliceSetOps. cbn [map].
  change (VPtr EtcdString (SetString v1) :: VPtr EtcdString (SetString v2)
            :: map (fun v => VPtr EtcdString (SetString v)) vals)
    with (map (fun v => VPtr EtcdString (SetString v)) (v1 :: v2 :: vals)).
  rewrite createSliceSetOps_range_chained. reflexivity.
Qed.

(** The test case [set_slice], with the identifiers ["id0"] and ["id1"]. *)
Example set_slice_ops :
  ops_of (createStructSetOps (fun n => match n with O => "id0" | _ => "id1" end)
    (TestModel3 (SetString "testName") [SetUuid "u1"; SetUuid "u2"])
    (<["@" := ""]> {[ "var" := "sub" ]}) false 0)
  = Some [ OpPut "/path/test/sub/to/name" "testName";
           OpPut "/path/test/sub/to/slice/id0" "u1";
           OpPut "/path/test/sub/to/slice/id0/id1" "u2" ].
Proof. vm_compute. reflexivity. Qed.

(** ** C4: the accumulator entry between sibling fields *)

(** After a nested record, the fields that follow are walked with the
    entry ["@"] that the nested walk left: the key of the nested record when
    that record has no nested record of its own. *)
Lemma createStructGetOps_after_nested tag fields loc pathvar inslice etcdKey :
  pathReplace tag pathvar inslice = Ok etcdKey ->
  createStructGetOps (VStruct ((Some tag, VStruct []) :: fields)) loc pathvar inslice
  = createStructGetOps_range fields 1 loc (<["@" := etcdKey]> pathvar) inslice [] [].
Proof.
  intros Hkey. rewrite createStructGetOps_unfold.
  cbn [createStructGetOps_range]. rewrite Hkey. reflexivity.
Qed.

Lemma createStructSetOps_after_nested uuid_New tag fields pathvar inslice n etcdKey :
  pathReplace tag pathvar inslice = Ok etcdKey ->
  createStructSetOps uuid_New (VStruct ((Some tag, VStruct []) :: fields)) pathvar inslice n
  = createStructSetOps_range uuid_New fields (<["@" := etcdKey]> pathvar) inslice [] n.
Proof.
  intros Hkey. rewrite createStructSetOps_unfold.
  cbn [createStructSetOps_range]. rewrite Hkey. reflexivity.
Qed.

(** After a collection the two paths differ: the read path has assigned
    the entry ["@"], the write path has not. *)
Lemma createStructGetOps_after_slice tag fields loc pathvar inslice etcdKey :
  pathReplace tag pathvar inslice = Ok etcdKey ->
  createStructGetOps (VStruct ((Some tag, VSlice []) :: fields)) loc pathvar inslice
  = createStructGetOps_range fields 1 loc (<["@" := etcdKey]> pathvar) inslice [] [].
Proof.
  intros Hkey. rewrite createStructGetOps_unfold.
  cbn [createStructGetOps_range]. rewrite Hkey. reflexivity.
Qed.

Lemma createStructSetOps_after_slice uuid_New tag fields pathvar inslice n etcdKey :
  pathReplace tag pathvar inslice = Ok etcdKey ->
  createStructSetOps uuid_New (VStruct ((Some tag, VSlice []) :: fields)) pathvar inslice n
  = createStructSetOps_range uuid_New fields pathvar inslice [] n.
Proof.
  intros Hkey. rewrite createStructSetOps_unfold.
  cbn [createStructSetOps_range]. rewrite Hkey. reflexivity.
Qed.

(** C4, the code at records whose last field is tagged [":@/name"], walked
    with the entry ["@"] that [Get] and [Set] start with. On the read path,
    after a nested record with key ["/c"] or after a collection with key
    ["/s"], the field is read at ["/c/name"] or ["/s/name"], not at
    ["/name"], the key under the accumulator of its own level. On the write
    path the same happens after a nested record, while after a collection
    the field is written at ["/name"]: the two paths resolve the same record
    to different keys. *)
Theorem accumulator_leaks_to_sibling :
  createStructGetOps
    (VStruct [(Some "/c", TestModel2Child GetBool GetInt);
              (Some ":@/name", VPtr EtcdString GetString)])
    [] (<["@" := ""]> ∅) false
  = Ok ([OpGet "/c/bool_key"; OpGet "/c/int_key"; OpGet "/c/name"],
        [FieldCallback [0%nat; 0%nat] EtcdBool; FieldCallback [0%nat; 1%nat] EtcdInt;
         FieldCallback [1%nat] EtcdString],
        <["@" := "/c"]> ∅)
  /\ createStructGetOps
       (VStruct [(Some "/s", VSlice [VPtr EtcdUuid GetUuid]);
                 (Some ":@/name", VPtr EtcdString GetString)])
       [] (<["@" := ""]> ∅) false
     = Ok ([OpGetPrefix "/s/"; OpGet "/s/name"],
           [SliceCallback [0%nat] EtcdUuid; FieldCallback [1%nat] EtcdString],
           <["@" := "/s"]> ∅)
  /\ ops_of (createStructSetOps (fun _ => "id")
               (VStruct [(Some "/c", TestModel2Child (SetBool true) (SetInt 42));
                         (Some ":@/name", VPtr EtcdString (SetString "x"))])
               (<["@" := ""]> ∅) false 0)
     = Some [OpPut "/c/bool_key" "true"; OpPut "/c/int_key" "42"; OpPut "/c/name" "x"]
  /\ ops_of (createStructSetOps (fun _ => "id")
               (VStruct [(Some "/s", VSlice [VPtr EtcdUuid (SetUuid "u")]);
                         (Some ":@/name", VPtr EtcdString (SetString "x"))])
               (<["@" := ""]> ∅) false 0)
     = Some [OpPut "/s/id" "u"; OpPut "/name" "x"].
Proof.
  repeat split; vm_compute; reflexivity.
Qed.

(** ** C10: a nil variable table *)

(** C10: with a pointer to a record and a nil table, [Get] and [Set] panic
    at the assignment of the entry ["@"]; nothing is built or sent before.
    With a table that is not nil the entry is assigned before the walk, so
    the result does not depend on what the caller had put there. *)
Theorem nil_table_panics Commit uuid_New fields n :
  store_Get Commit (ArgPtr (VStruct fields)) NilMap = (Panic, ArgPtr (VStruct fields))
  /\ store_Set Commit uuid_New (ArgPtr (VStruct fields)) NilMap n = Panic
  /\ (forall m acc,
        store_Get Commit (ArgPtr (VStruct fields)) (Map (<["@" := acc]> m))
        = store_Get Commit (ArgPtr (VStruct fields)) (Map m)
        /\ store_Set Commit uuid_New (ArgPtr (VStruct fields)) (Map (<["@" := acc]> m)) n
           = store_Set Commit uuid_New (ArgPtr (VStruct fields)) (Map m) n).
Proof.
  split; [reflexivity|]. split; [reflexivity|].
  intros m acc. unfold store_Get, store_Set.
  rewrite insert_insert_eq. split; reflexivity.
Qed.

(** The checks of the argument come first: without a pointer to a record
    the error is returned, also with a nil table. *)
Lemma nil_table_bad_argument Commit uuid_New n :
  store_Get Commit ArgNotPtr NilMap = (Err ErrNotPointer, ArgNotPtr)
  /\ store_Get Commit ArgNilPtr NilMap = (Err ErrNotStruct, ArgNilPtr)
  /\ store_Set Commit uuid_New ArgNotPtr NilMap n = Err ErrNotPointer
  /\ store_Set Commit uuid_New (ArgPtr VOther) NilMap n = Err ErrNotStruct.
Proof. repeat split. Qed.

(** ** C8: the number of responses *)

(** C8: when the store answers with a number of responses that is not the
    number of callbacks, [Get] returns "Unexpected number of responses" and
    the record is as it was: no callback has been called. *)
Theorem response_count_mismatch Commit fields m etcdOps callbacks pathvar Responses :
  createStructGetOps (VStruct fields) [] (<["@" := ""]> m) false
  = Ok (etcdOps, callbacks, pathvar) ->
  Commit etcdOps = Ok Responses ->
  length Responses <> length callbacks ->
  store_Get Commit (ArgPtr (VStruct fields)) (Map m)
  = (Err ErrResponses, ArgPtr (VStruct fields)).
Proof.
  intros Hops Hcommit Hlen. unfold store_Get.
  rewrite Hops, Hcommit.
  destruct (Nat.eqb_spec (length Responses) (length callbacks)) as [E|_];
    [contradiction|reflexivity].
Qed.

Lemma response_count_mismatch_witness :
  store_Get (fun _ => Ok [])
    (ArgPtr (VStruct [(Some "/k", VPtr EtcdString GetString)])) (Map ∅)
  = (Err ErrResponses, ArgPtr (VStruct [(Some "/k", VPtr EtcdString GetString)])).
Proof.
  apply (response_count_mismatch (fun _ => Ok [])
           [(Some "/k", VPtr EtcdString GetString)] ∅
           [OpGet "/k"] [FieldCallback [0%nat] EtcdString] (<["@" := ""]> ∅) []).
  - vm_compute. reflexivity.
  - reflexivity.
  - simpl. lia.
Defined.

(** With as many responses as callbacks the callbacks do run: the same
    record, answered with one empty response, has its field set to nil. *)
Example response_count_match :
  store_Get (fun _ => Ok [ResponseRange []])
    (ArgPtr (VStruct [(Some "/k", VPtr EtcdString GetString)])) (Map ∅)
  = (Ok (), ArgPtr (VStruct [(Some "/k", VPtr EtcdString PNil)])).
Proof. vm_compute. reflexivity. Qed.

(** ** C7: path resolution *)

Lemma substring_all (s : string) : String.substring 0 (String.length s) s = s.
Proof. induction s as [|c s IH]; simpl; [reflexivity | by rewrite IH]. Qed.

(** A segment with the marker is the marker followed by the variable name. *)
Lemma HasPrefix_colon (p : string) :
  strings.HasPrefix p ":" = true -> p = String ":" (strings.TrimPrefix p ":").
Proof.
  intros H. unfold strings.TrimPrefix. rewrite H.
  unfold strings.HasPrefix in H.
  destruct p as [|c p]; cbn [String.prefix] in H; [discriminate|].
  destruct (Ascii.ascii_dec ":" c) as [<-|]; [|discriminate].
  cbn [String.length String.substring Nat.sub]. by rewrite Nat.sub_0_r, substring_all.
Qed.

Lemma TrimPrefix_at (p : string) :
  strings.HasPrefix p ":" = true ->
  (strings.TrimPrefix p ":" =? "@")%string = true <-> p = ":@".
Proof.
  intros H. rewrite String.eqb_eq. split.
  - intros E. rewrite (HasPrefix_colon p H), E. reflexivity.
  - intros ->. reflexivity.
Qed.

Lemma pathReplace_range_passes pathvars inslice l1 l2 :
  (forall q, q ∈ l1 -> passes pathvars inslice q) ->
  forall path, exists path',
    pathReplace_range (l1 ++ l2) path pathvars inslice
    = pathReplace_range l2 path' pathvars inslice.
Proof.
  induction l1 as [|q l1 IH]; intros Hl1 path; simpl.
  - by exists path.
  - assert (Hrest : forall q', q' ∈ l1 -> passes pathvars inslice q')
      by (intros q' Hq'; apply Hl1; by right).
    destruct (strings.HasPrefix q ":") eqn:Hpre; [|by apply IH].
    destruct (Hl1 q (list_elem_of_here _ _) Hpre) as [Hat [val Hval]].
    rewrite Hval.
    destruct inslice.
    + destruct ((strings.TrimPrefix q ":" =? "@")%string) eqn:E.
      * apply TrimPrefix_at in E; [|done]. by destruct Hat.
      * simpl. by apply IH.
    + rewrite andb_false_r. by apply IH.
Qed.

Lemma pathReplace_range_missing pathvars l p :
  p ∈ l ->
  strings.HasPrefix p ":" = true ->
  pathvars !! strings.TrimPrefix p ":" = None ->
  forall path, exists q, pathReplace_range l path pathvars false = Err (ErrNotPopulated q).
Proof.
  intros Hin Hpre Hnone.
  induction l as [|q l IH]; intros path; [by apply elem_of_nil in Hin|]. simpl.
  apply elem_of_cons in Hin as [<-|Hin].
  - rewrite Hpre, andb_false_r, Hnone. by exists p.
  - destruct (strings.HasPrefix q ":"); [|by apply IH].
    rewrite andb_false_r.
    destruct (pathvars !! strings.TrimPrefix q ":"); [by apply IH | by exists q].
Qed.

(** C7, the claim as stated fails: inside a collection, a template with the
    segment [":@"] after a variable that the table does not have fails with
    "pathvar :y not populated", not with "cannot use @ pathvar inside
    slice". The first segment that cannot be resolved decides. *)
Lemma pathReplace_counterexample :
  pathReplace ":y/:@" {[ "@" := "" ]} true = Err (ErrNotPopulated ":y")
  /\ pathReplace ":y/:@" {[ "@" := "" ]} true <> Err ErrAtInSlice.
Proof. split; [vm_compute; reflexivity | vm_compute; discriminate]. Qed.

(** C7, amended: the example resolves to ["/a/5/b"]. Outside a collection
    a template with a segment that names a variable absent from the table
    fails with "pathvar ... not populated". Inside a collection the first
    segment that does not pass decides: the template fails with "cannot use
    @ pathvar inside slice" when that segment is [":@"], and with "pathvar
    ... not populated" when it names another variable, absent from the
    table. *)
Theorem pathReplace_resolution :
  pathReplace "/a/:x/b" {[ "x" := "5" ]} false = Ok "/a/5/b"
  /\ (forall path pathvars p,
        p ∈ strings.Split path "/" ->
        strings.HasPrefix p ":" = true ->
        pathvars !! strings.TrimPrefix p ":" = None ->
        exists q, pathReplace path pathvars false = Err (ErrNotPopulated q))
  /\ (forall path pathvars l1 l2,
        strings.Split path "/" = (l1 ++ ":@" :: l2)%list ->
        (forall q, q ∈ l1 -> passes pathvars true q) ->
        pathReplace path pathvars true = Err ErrAtInSlice)
  /\ (forall path pathvars l1 p l2,
        strings.Split path "/" = (l1 ++ p :: l2)%list ->
        (forall q, q ∈ l1 -> passes pathvars true q) ->
        strings.HasPrefix p ":" = true ->
        p <> ":@" ->
        pathvars !! strings.TrimPrefix p ":" = None ->
        pathReplace path pathvars true = Err (ErrNotPopulated p)).
Proof.
  split; [vm_compute; reflexivity|]. split; [|split].
  - intros path pathvars p Hin Hpre Hnone. unfold pathReplace.
    by apply (pathReplace_range_missing pathvars _ p).
  - intros path pathvars l1 l2 Hsplit Hl1. unfold pathReplace. rewrite Hsplit.
    destruct (pathReplace_range_passes pathvars true l1 (":@" :: l2) Hl1 path)
      as [path' ->].
    reflexivity.
  - intros path pathvars l1 p l2 Hsplit Hl1 Hpre Hat Hnone. unfold pathReplace.
    rewrite Hsplit.
    destruct (pathReplace_range_passes pathvars true l1 (p :: l2) Hl1 path)
      as [path' ->].
    simpl. rewrite Hpre, Hnone.
    destruct ((strings.TrimPrefix p ":" =? "@")%string) eqn:E; [|reflexivity].
    apply TrimPrefix_at in E; [|done]. contradiction.
Qed.

Lemma pathReplace_resolution_witness :
  (exists q, pathReplace "/a/:x/b" ∅ false = Err (ErrNotPopulated q))
  /\ pathReplace "/a/:x/:@" {[ "x" := "5" ]} true = Err ErrAtInSlice
  /\ pathReplace "/a/:x/:y" {[ "x" := "5" ]} true = Err (ErrNotPopulated ":y").
Proof.
  destruct pathReplace_resolution as (_ & Hmissing & Hat & Hfirst).
  split; [|split].
  - apply (Hmissing "/a/:x/b" ∅ ":x").
    + vm_compute. right. right. left.
    + reflexivity.
    + reflexivity.
  - apply (Hat "/a/:x/:@" {[ "x" := "5" ]} [""; "a"; ":x"] []).
    + reflexivity.
    + intros q Hq Hpre. split; [intros _|].
      * intros ->. vm_compute in Hq. repeat (apply elem_of_cons in Hq as [Hq|Hq]; [discriminate Hq|]). by apply elem_of_nil in Hq.
      * repeat (apply elem_of_cons in Hq as [->|Hq]; [try discriminate Hpre; try (by eexists)|]). by apply elem_of_nil in Hq.
  - apply (Hfirst "/a/:x/:y" {[ "x" := "5" ]} [""; "a"; ":x"] ":y" []).
    + reflexivity.
    + intros q Hq Hpre. split; [intros _|].
      * intros ->. repeat (apply elem_of_cons in Hq as [Hq|Hq]; [discriminate Hq|]). by apply elem_of_nil in Hq.
      * repeat (apply elem_of_cons in Hq as [->|Hq]; [try discriminate Hpre; try (by eexists)|]). by apply elem_of_nil in Hq.
    + reflexivity.
    + discriminate.
    + reflexivity.
Defined.

(** ** C6: the two encodings of the byte blob *)

(** The two alphabets agree on the first 62 symbols and differ on the last
    two; the decoder of [FromString] knows neither ['-'] nor ['_']. *)
Lemma alphabets_differ :
  base64.RawURLEncoding <> base64.RawStdEncoding
  /\ String.substring 0 62 base64.RawURLEncoding = String.substring 0 62 base64.RawStdEncoding
  /\ base64.symbol base64.RawURLEncoding 62 = "-"%char
  /\ base64.symbol base64.RawURLEncoding 63 = "_"%char
  /\ base64.symbol base64.RawStdEncoding 62 = "+"%char
  /\ base64.symbol base64.RawStdEncoding 63 = "/"%char
  /\ base64.decodeMap base64.RawStdEncoding "-" = None
  /\ base64.decodeMap base64.RawStdEncoding "_" = None.
Proof. repeat split; try reflexivity. discriminate. Qed.

(** A byte that the alphabet does not have, and that is not a line break,
    makes the decoder fail wherever it stands. *)
Lemma decode_unknown_byte enc c src :
  base64.decodeMap enc c = None ->
  c <> "010"%char -> c <> "013"%char ->
  occurs c src = true ->
  forall dbuf, base64.decode enc src dbuf = Err ErrCorruptInput.
Proof.
  intros Hmap Hlf Hcr. induction src as [|c' src IH]; intros Hocc dbuf;
    [discriminate Hocc|].
  cbn [occurs] in Hocc. cbn [base64.decode].
  destruct (Ascii.eqb_spec c c') as [<-|Hne].
  - rewrite Hmap.
    destruct (Ascii.eqb_spec c "010"); [contradiction|].
    destruct (Ascii.eqb_spec c "013"); [contradiction|]. reflexivity.
  - simpl in Hocc. specialize (IH Hocc).
    destruct (base64.decodeMap enc c') as [out|].
    + destruct dbuf as [|d0 [|d1 [|d2 [|d3 dbuf]]]]; try apply IH.
      rewrite IH. reflexivity.
    + destruct (Ascii.eqb c' "010" || Ascii.eqb c' "013"); [apply IH|reflexivity].
Qed.

(** The first symbol of the text of a blob is made of the six high bits of
    its first byte. *)
Lemma first_sextet (b0 x : Z) :
  0 <= x < 2 ^ 16 ->
  Z.shiftr (Z.lor (Z.shiftl b0 16) x) 18 = Z.shiftr b0 2.
Proof.
  intros Hx. rewrite Z.shiftr_lor.
  rewrite Z.shiftr_shiftl_r by lia. replace (18 - 16) with 2 by lia.
  assert (Hx0 : Z.shiftr x 18 = 0).
  { rewrite Z.shiftr_div_pow2 by lia. apply Z.div_small. lia. }
  rewrite Hx0. apply Z.lor_0_r.
Qed.

Lemma low_bits_bound (b1 b2 : Z) :
  0 <= b1 < 256 -> 0 <= b2 < 256 ->
  0 <= Z.lor (Z.shiftl b1 8) b2 < 2 ^ 16.
Proof.
  intros H1 H2.
  assert (Hs : 0 <= Z.shiftl b1 8 < 2 ^ 16) by (rewrite Z.shiftl_mul_pow2; lia).
  split; [apply Z.lor_nonneg; lia|].
  destruct (Z.eq_dec (Z.lor (Z.shiftl b1 8) b2) 0) as [->|Hne]; [lia|].
  apply Z.log2_lt_pow2; [apply Z.le_neq; split; [apply Z.lor_nonneg|]; lia|].
  rewrite Z.log2_lor by lia.
  apply Z.max_lub_lt.
  - destruct (Z.eq_dec (Z.shiftl b1 8) 0) as [->|]; [simpl; lia|].
    apply Z.log2_lt_pow2; lia.
  - destruct (Z.eq_dec b2 0) as [->|]; [simpl; lia|].
    apply Z.log2_lt_pow2; lia.
Qed.

(** Blobs whose text has one of the two symbols are common: every blob
    that starts with a byte from 248 to 255 has it as its first symbol. *)
Lemma EncodeToString_high_byte (b0 : Z) (b : list Z) :
  248 <= b0 < 256 ->
  Forall (fun x => 0 <= x < 256) b ->
  occurs "-" (base64.EncodeToString base64.RawURLEncoding (b0 :: b))
  || occurs "_" (base64.EncodeToString base64.RawURLEncoding (b0 :: b)) = true.
Proof.
  intros H Hb.
  assert (Hfirst : exists s,
    base64.EncodeToString base64.RawURLEncoding (b0 :: b)
    = String (base64.symbol base64.RawURLEncoding (Z.land (Z.shiftr b0 2) 63)) s).
  { destruct b as [|b1 [|b2 b]]; cbn [base64.EncodeToString]; cbv zeta.
    - eexists. f_equal. f_equal. f_equal.
      rewrite <- (Z.lor_0_r (Z.shiftl b0 16)). apply first_sextet. lia.
    - eexists. f_equal. f_equal. f_equal.
      apply first_sextet. inversion_clear Hb.
      rewrite Z.shiftl_mul_pow2 by lia. lia.
    - eexists. f_equal. f_equal. f_equal.
      rewrite <- Z.lor_assoc. apply first_sextet.
      inversion_clear Hb as [|? ? H1 Hb']. inversion_clear Hb' as [|? ? H2 _].
      by apply low_bits_bound. }
  destruct Hfirst as [s ->].
  assert (Hcases : b0 = 248 \/ b0 = 249 \/ b0 = 250 \/ b0 = 251
                   \/ b0 = 252 \/ b0 = 253 \/ b0 = 254 \/ b0 = 255) by lia.
  assert (Hsym : base64.symbol base64.RawURLEncoding (Z.land (Z.shiftr b0 2) 63) = "-"%char
                 \/ base64.symbol base64.RawURLEncoding (Z.land (Z.shiftr b0 2) 63) = "_"%char).
  { destruct Hcases as [->|[->|[->|[->|[->|[->|[->| ->]]]]]]];
      first [left; reflexivity | right; reflexivity]. }
  cbn [occurs].
  destruct Hsym as [-> | ->]; rewrite Ascii.eqb_refl.
  - reflexivity.
  - rewrite orb_true_l. apply orb_true_r.
Qed.

(** The text of a blob with one of the two symbols is not decoded. *)
Lemma decode_url_text_fails (b : list Z) :
  occurs "-" (base64.EncodeToString base64.RawURLEncoding b)
  || occurs "_" (base64.EncodeToString base64.RawURLEncoding b) = true ->
  (s ← ToString EtcdBytes (SetBytes b); FromString EtcdBytes s) = Err ErrCorruptInput
  /\ FromString EtcdBytes (base64.EncodeToString base64.RawURLEncoding b)
     = Err ErrCorruptInput.
Proof.
  intros Hocc.
  assert (Hfail : FromString EtcdBytes
                    (base64.EncodeToString base64.RawURLEncoding b)
                  = Err ErrCorruptInput).
  { cbn [FromString]. unfold base64.DecodeString.
    apply orb_true_iff in Hocc as [Hocc|Hocc].
    - apply (decode_unknown_byte _ "-"); [reflexivity|discriminate|discriminate|done].
    - apply (decode_unknown_byte _ "_"); [reflexivity|discriminate|discriminate|done]. }
  split; [|exact Hfail]. exact Hfail.
Qed.

(** The blobs that start with a byte from 248 to 255 are all lost. *)
Lemma bytes_high_byte_lost (b0 : Z) (b : list Z) :
  248 <= b0 < 256 ->
  Forall (fun x => 0 <= x < 256) b ->
  (s ← ToString EtcdBytes (SetBytes (b0 :: b)); FromString EtcdBytes s)
  = Err ErrCorruptInput.
Proof.
  intros H0 Hb.
  destruct (decode_url_text_fails (b0 :: b)) as [Hfail _].
  - by apply EncodeToString_high_byte.
  - exact Hfail.
Qed.

(** C6, the claim as stated fails: a blob whose text has neither of the two
    symbols is read back as it was written. The blob is the text "hello";
    [ToString] writes it as "aGVsbG8", which is the same in both
    alphabets. *)
Lemma bytes_round_trip_counterexample :
  in_domain EtcdBytes [104; 101; 108; 108; 111]
  /\ ToString EtcdBytes (SetBytes [104; 101; 108; 108; 111]) = Ok "aGVsbG8"
  /\ FromString EtcdBytes "aGVsbG8" = Ok [104; 101; 108; 108; 111].
Proof.
  split; [repeat constructor; lia|]. split; vm_compute; reflexivity.
Qed.

(** ** C5: writing a value and reading it back *)

(** *** Decimal digits *)

Lemma digit_cases (d : Z) :
  0 <= d < 10 ->
  d = 0 \/ d = 1 \/ d = 2 \/ d = 3 \/ d = 4 \/ d = 5 \/ d = 6 \/ d = 7 \/ d = 8 \/ d = 9.
Proof. lia. Qed.

Lemma digit_val_char (d : Z) :
  0 <= d < 10 -> strconv.digit_val (strconv.digit_char d) = Some d.
Proof.
  intros H. destruct (digit_cases d H) as [->|[->|[->|[->|[->|[->|[->|[->|[->| ->]]]]]]]]];
    reflexivity.
Qed.

Lemma digit_char_not_sign (d : Z) :
  0 <= d < 10 ->
  Ascii.eqb (strconv.digit_char d) "+" = false
  /\ Ascii.eqb (strconv.digit_char d) "-" = false.
Proof.
  intros H. destruct (digit_cases d H) as [->|[->|[->|[->|[->|[->|[->|[->|[->| ->]]]]]]]]];
    split; reflexivity.
Qed.

(** The equations of the append of strings, which [simpl] does not unfold. *)
Lemma string_app_cons (c : ascii) (s1 s2 : string) :
  String c s1 +:+ s2 = String c (s1 +:+ s2).
Proof. reflexivity. Qed.

Lemma string_app_empty (s : string) : "" +:+ s = s.
Proof. reflexivity. Qed.

Create Rewrite HintDb str.
#[local] Hint Rewrite string_app_cons string_app_empty : str.

Lemma string_app_assoc (s1 s2 s3 : string) : (s1 +:+ s2) +:+ s3 = s1 +:+ (s2 +:+ s3).
Proof.
  induction s1 as [|c s1 IH]; autorewrite with str; [reflexivity | f_equal; exact IH].
Qed.

(** What [formatBits] writes does not depend on what is already written. *)
Lemma formatBits_app (fuel : nat) :
  forall us a, strconv.formatBits fuel us a = strconv.formatBits fuel us "" +:+ a.
Proof.
  induction fuel as [|fuel IH]; intros us a; cbn [strconv.formatBits].
  - reflexivity.
  - destruct (10 <=? us); [|reflexivity].
    rewrite (IH _ (String _ a)), (IH _ (String _ "")).
    by rewrite string_app_assoc.
Qed.

Lemma formatBits_head (fuel : nat) :
  forall us a, 0 <= us ->
    exists d s, 0 <= d < 10 /\ strconv.formatBits fuel us a = String (strconv.digit_char d) s.
Proof.
  induction fuel as [|fuel IH]; intros us a Hus; cbn [strconv.formatBits].
  - exists (us mod 10), a. split; [apply Z.mod_pos_bound; lia | reflexivity].
  - destruct (Z.leb_spec 10 us).
    + apply IH. apply Z.div_pos; lia.
    + exists us, a. split; [lia | reflexivity].
Qed.

Lemma parseDigits_app (s1 s2 : string) :
  forall n, strconv.parseDigits (s1 +:+ s2) n
            = (n' ← strconv.parseDigits s1 n; strconv.parseDigits s2 n').
Proof.
  induction s1 as [|c s1 IH]; intros n; autorewrite with str; [reflexivity|].
  cbn [strconv.parseDigits].
  destruct (strconv.digit_val c); [|reflexivity].
  destruct (_ <=? n); [reflexivity|].
  destruct (_ || _); [reflexivity|]. apply IH.
Qed.

(** One more digit after the digits of [n]. *)
Lemma parseDigits_digit (n d : Z) :
  0 <= n -> 0 <= d < 10 -> n * 10 + d <= strconv.maxUint64 ->
  strconv.parseDigits (String (strconv.digit_char d) "") n = Ok (n * 10 + d).
Proof.
  intros Hn Hd Hmax. unfold strconv.maxUint64 in Hmax.
  cbn [strconv.parseDigits]. rewrite digit_val_char by done.
  unfold strconv.maxUint64.
  destruct (Z.leb_spec ((2 ^ 64 - 1) / 10 + 1) n) as [Hc|_].
  { change ((2 ^ 64 - 1) / 10 + 1) with 1844674407370955162 in Hc. lia. }
  cbv zeta. rewrite Z.mod_small by lia.
  destruct (Z.ltb_spec (n * 10 + d) (n * 10)); [lia|].
  destruct (Z.ltb_spec (2 ^ 64 - 1) (n * 10 + d)); [lia|]. reflexivity.
Qed.

(** The digits that [formatBits] writes are read back as the number. *)
Lemma parseDigits_formatBits (fuel : nat) :
  forall us, 0 <= us < 10 ^ Z.of_nat (S fuel) -> us <= strconv.maxUint64 ->
    strconv.parseDigits (strconv.formatBits fuel us "") 0 = Ok us.
Proof.
  induction fuel as [|fuel IH]; intros us Hus Hmax; cbn [strconv.formatBits].
  - change (10 ^ Z.of_nat 1) with 10 in Hus.
    rewrite Z.mod_small by lia.
    rewrite (parseDigits_digit 0 us) by lia. f_equal.
  - destruct (Z.leb_spec 10 us) as [Hge|Hlt].
    + rewrite formatBits_app, parseDigits_app.
      assert (Hq : 0 <= us / 10 < 10 ^ Z.of_nat (S fuel)).
      { split; [apply Z.div_pos; lia|].
        apply Z.div_lt_upper_bound; [lia|].
        rewrite (Nat2Z.inj_succ (S fuel)), Z.pow_succ_r in Hus by lia. lia. }
      assert (Hqmax : us / 10 <= strconv.maxUint64).
      { pose proof (Z.div_le_upper_bound us 10 us). lia. }
      rewrite (IH (us / 10) Hq Hqmax). cbn [mbind outcome_bind].
      pose proof (Z.div_mod us 10 ltac:(lia)) as Hdm.
      pose proof (Z.mod_pos_bound us 10 ltac:(lia)) as Hmod.
      rewrite parseDigits_digit by lia.
      f_equal. lia.
    + rewrite (parseDigits_digit 0 us) by lia. f_equal.
Qed.

Lemma ParseUint_FormatUint (u : Z) :
  0 <= u < 2 ^ 64 -> strconv.ParseUint (strconv.FormatUint u) = Ok u.
Proof.
  intros Hu. unfold strconv.FormatUint, strconv.ParseUint.
  destruct (formatBits_head 20 u "" ltac:(lia)) as (d & s & _ & E).
  rewrite E, <- E.
  apply parseDigits_formatBits; [|unfold strconv.maxUint64; lia].
  change (10 ^ Z.of_nat 21) with 1000000000000000000000.
  change (2 ^ 64) with 18446744073709551616 in Hu. lia.
Qed.

Lemma ParseInt_FormatInt (i : Z) :
  - 2 ^ 63 <= i < 2 ^ 63 -> strconv.ParseInt (strconv.FormatInt i) = Ok i.
Proof.
  intros Hi. change (2 ^ 63) with 9223372036854775808 in Hi.
  unfold strconv.FormatInt.
  destruct (Z.ltb_spec i 0) as [Hneg|Hpos].
  - cbn [strconv.ParseInt]. change (Ascii.eqb "-" "+") with false.
    change (Ascii.eqb "-" "-") with true. cbv iota beta.
    fold (strconv.FormatUint (- i)).
    rewrite ParseUint_FormatUint
      by (change (2 ^ 64) with 18446744073709551616; lia).
    cbn [mbind outcome_bind negb andb].
    change (2 ^ 63) with 9223372036854775808.
    destruct (Z.ltb_spec 9223372036854775808 (- i)); [lia|].
    f_equal. lia.
  - destruct (formatBits_head 20 i "" Hpos) as (d & s & Hd & E).
    pose proof (ParseUint_FormatUint i) as Hu. unfold strconv.FormatUint in Hu.
    rewrite E in *. cbn [strconv.ParseInt].
    destruct (digit_char_not_sign d Hd) as [-> ->]. cbv iota beta.
    rewrite Hu by (change (2 ^ 64) with 18446744073709551616; lia).
    cbn [mbind outcome_bind negb andb].
    change (2 ^ 63) with 9223372036854775808.
    destruct (Z.leb_spec 9223372036854775808 i); [lia|]. reflexivity.
Qed.

Lemma ParseBool_FormatBool (b : bool) :
  strconv.ParseBool (strconv.FormatBool b) = Ok b.
Proof. destruct b; reflexivity. Qed.

(** *** The fields of a time *)

Lemma formatBits_S (fuel : nat) (us : Z) (a : string) :
  strconv.formatBits (S fuel) us a
  = if 10 <=? us
    then strconv.formatBits fuel (us / 10) (String (strconv.digit_char (us mod 10)) a)
    else String (strconv.digit_char us) a.
Proof. reflexivity. Qed.

Lemma appendInt_2 (x : Z) :
  0 <= x < 100 ->
  time.appendInt x 2
  = String (strconv.digit_char (x / 10)) (String (strconv.digit_char (x mod 10)) "").
Proof.
  intros Hx. unfold time.appendInt.
  destruct (Z.ltb_spec x 0); [lia|]. rewrite Z.abs_eq by lia.
  rewrite formatBits_S. destruct (Z.leb_spec 10 x).
  - rewrite formatBits_S. destruct (Z.leb_spec 10 (x / 10)).
    { Z.div_mod_to_equations. lia. }
    reflexivity.
  - rewrite Z.div_small, Z.mod_small by lia. reflexivity.
Qed.

Lemma appendInt_4 (y : Z) :
  0 <= y < 10000 ->
  time.appendInt y 4
  = String (strconv.digit_char (y / 1000))
      (String (strconv.digit_char (y / 100 mod 10))
         (String (strconv.digit_char (y / 10 mod 10))
            (String (strconv.digit_char (y mod 10)) ""))).
Proof.
  intros Hy. unfold time.appendInt.
  destruct (Z.ltb_spec y 0); [lia|]. rewrite Z.abs_eq by lia.
  rewrite formatBits_S. destruct (Z.leb_spec 10 y).
  - rewrite formatBits_S. destruct (Z.leb_spec 10 (y / 10)).
    + rewrite formatBits_S. destruct (Z.leb_spec 10 (y / 10 / 10)).
      * rewrite formatBits_S. destruct (Z.leb_spec 10 (y / 10 / 10 / 10)).
        { Z.div_mod_to_equations. lia. }
        replace (y / 1000) with (y / 10 / 10 / 10) by (Z.div_mod_to_equations; lia).
        replace (y / 100 mod 10) with (y / 10 / 10 mod 10)
          by (Z.div_mod_to_equations; lia).
        reflexivity.
      * replace (y / 1000) with 0 by (Z.div_mod_to_equations; lia).
        replace (y / 100 mod 10) with (y / 10 / 10) by (Z.div_mod_to_equations; lia).
        reflexivity.
    + replace (y / 1000) with 0 by (Z.div_mod_to_equations; lia).
      replace (y / 100 mod 10) with 0 by (Z.div_mod_to_equations; lia).
      replace (y / 10 mod 10) with (y / 10) by (Z.div_mod_to_equations; lia).
      reflexivity.
  - replace (y / 1000) with 0 by (Z.div_mod_to_equations; lia).
    replace (y / 100 mod 10) with 0 by (Z.div_mod_to_equations; lia).
    replace (y / 10 mod 10) with 0 by (Z.div_mod_to_equations; lia).
    replace (y mod 10) with y by (Z.div_mod_to_equations; lia).
    reflexivity.
Qed.

Lemma isDigit_char (d : Z) : 0 <= d < 10 -> time.isDigit (strconv.digit_char d) = true.
Proof. intros H. unfold time.isDigit. by rewrite digit_val_char. Qed.

Lemma allDigits_digit (d : Z) (s : string) (x : Z) :
  0 <= d < 10 ->
  time.allDigits (String (strconv.digit_char d) s) x = time.allDigits s (x * 10 + d).
Proof. intros H. cbn [time.allDigits]. by rewrite digit_val_char. Qed.

Lemma atoi_digit (d : Z) (s : string) :
  0 <= d < 10 ->
  time.atoi (String (strconv.digit_char d) s)
  = time.allDigits (String (strconv.digit_char d) s) 0.
Proof.
  intros H. destruct (digit_cases d H) as [->|[->|[->|[->|[->|[->|[->|[->|[->| ->]]]]]]]]];
    reflexivity.
Qed.

Lemma getnum_digits (d0 d1 : Z) (rest : string) (fixed : bool) :
  0 <= d0 < 10 -> 0 <= d1 < 10 ->
  time.getnum (String (strconv.digit_char d0) (String (strconv.digit_char d1) rest)) fixed
  = Ok (d0 * 10 + d1, rest).
Proof.
  intros H0 H1. unfold time.getnum. by rewrite !digit_val_char.
Qed.

Lemma getnum_appendInt (x : Z) (rest : string) (fixed : bool) :
  0 <= x < 100 ->
  time.getnum (time.appendInt x 2 +:+ rest) fixed = Ok (x, rest).
Proof.
  intros Hx. rewrite appendInt_2 by done. autorewrite with str.
  rewrite getnum_digits by (Z.div_mod_to_equations; lia).
  do 2 f_equal. Z.div_mod_to_equations; lia.
Qed.

Lemma year_appendInt (y : Z) :
  0 <= y < 10000 ->
  exists c0 c1 c2 c3,
    time.appendInt y 4 = String c0 (String c1 (String c2 (String c3 "")))
    /\ time.isDigit c0 = true
    /\ time.atoi (String c0 (String c1 (String c2 (String c3 "")))) = Ok y.
Proof.
  intros Hy. rewrite appendInt_4 by done. do 4 eexists. split; [reflexivity|].
  split; [apply isDigit_char; Z.div_mod_to_equations; lia|].
  rewrite atoi_digit, !allDigits_digit by (Z.div_mod_to_equations; lia).
  cbn [time.allDigits]. f_equal. Z.div_mod_to_equations; lia.
Qed.

Lemma skip_same (c : ascii) (rest : string) : time.skip (String c rest) c = Ok rest.
Proof. unfold time.skip. by rewrite Ascii.eqb_refl. Qed.

Lemma parseZone_offset (neg : bool) (hh mm : Z) :
  0 <= hh <= 24 -> 0 <= mm <= 60 ->
  time.parseZone ((if neg then "-" else "+") +:+ time.appendInt hh 2 +:+
                  String ":" (time.appendInt mm 2))
  = Ok ((if neg then -1 else 1) * ((hh * 60 + mm) * 60), "").
Proof.
  intros Hh Hm.
  assert (Hnum : forall x, 0 <= x < 100 ->
            time.getnum (String (strconv.digit_char (x / 10))
                           (String (strconv.digit_char (x mod 10)) "")) true = Ok (x, "")).
  { intros x Hx. rewrite getnum_digits by (Z.div_mod_to_equations; lia).
    do 2 f_equal. Z.div_mod_to_equations; lia. }
  pose proof (Hnum hh ltac:(lia)) as Hhr. pose proof (Hnum mm ltac:(lia)) as Hmm.
  rewrite !appendInt_2 by lia.
  destruct neg; autorewrite with str; cbn [time.parseZone];
    change (Ascii.eqb ":" ":") with true; cbn [negb];
    rewrite Hhr, Hmm; cbn [mbind outcome_bind];
    (destruct (Z.ltb_spec 24 hh); [lia|]); (destruct (Z.ltb_spec 60 mm); [lia|]);
    cbn [orb]; cbv zeta;
    [change (Ascii.eqb "-" "+") with false; change (Ascii.eqb "-" "-") with true
    |change (Ascii.eqb "+" "+") with true]; cbv iota; do 2 f_equal; lia.
Qed.

Lemma daysIn_bound (m y : Z) : 1 <= m <= 12 -> time.daysIn m y <= 31.
Proof.
  intros Hm.
  assert (Hc : m = 1 \/ m = 2 \/ m = 3 \/ m = 4 \/ m = 5 \/ m = 6 \/ m = 7
               \/ m = 8 \/ m = 9 \/ m = 10 \/ m = 11 \/ m = 12) by lia.
  unfold time.daysIn.
  destruct Hc as [->|[->|[->|[->|[->|[->|[->|[->|[->|[->|[->| ->]]]]]]]]]]];
    try (vm_compute; discriminate).
  destruct (time.isLeap y); vm_compute; discriminate.
Qed.

Lemma parseFraction_zone (value : string) :
  (exists rest, value = String "Z" rest \/ value = String "+" rest \/ value = String "-" rest) ->
  time.parseFraction value = Ok (0, value).
Proof. intros (rest & [-> | [-> | ->]]); destruct rest; reflexivity. Qed.

Lemma Parse_Format (t : time.Time) :
  time.valid t = true -> time.in_layout t = true ->
  time.Parse (time.Format t) = Ok t.
Proof.
  destruct t as [y mo d h mi s ns off].
  unfold time.valid, time.in_layout. cbn [time.Year time.Month time.Day time.Hour time.Minute time.Second time.Nanosecond time.Offset].
  rewrite !andb_true_iff. rewrite !Z.leb_le, !Z.ltb_lt, !Z.eqb_eq.
  intros Hv Hl.
  assert (Hd31 : time.daysIn mo y <= 31) by (apply daysIn_bound; lia).
  unfold time.Format. cbn [time.Year time.Month time.Day time.Hour time.Minute time.Second time.Nanosecond time.Offset].
  destruct (year_appendInt y) as (c0 & c1 & c2 & c3 & -> & Hc0 & Hy); [lia|].
  autorewrite with str.
  unfold time.Parse. rewrite Hc0, Hy. cbn [negb mbind outcome_bind].
  rewrite skip_same. cbn [mbind outcome_bind].
  rewrite getnum_appendInt by lia. cbn [mbind outcome_bind].
  destruct (Z.leb_spec mo 0); [lia|]. destruct (Z.ltb_spec 12 mo); [lia|]. cbn [orb].
  rewrite skip_same. cbn [mbind outcome_bind].
  rewrite getnum_appendInt by lia. cbn [mbind outcome_bind].
  rewrite skip_same. cbn [mbind outcome_bind].
  rewrite getnum_appendInt by lia. cbn [mbind outcome_bind].
  destruct (Z.leb_spec 24 h); [lia|].
  rewrite skip_same. cbn [mbind outcome_bind].
  rewrite getnum_appendInt by lia. cbn [mbind outcome_bind].
  destruct (Z.leb_spec 60 mi); [lia|].
  rewrite skip_same. cbn [mbind outcome_bind].
  rewrite getnum_appendInt by lia. cbn [mbind outcome_bind].
  destruct (Z.leb_spec 60 s); [lia|].
  assert (Hzone : exists zone,
    (if off =? 0 then "Z"
     else (if off `quot` 60 <? 0 then "-" else "+")
            +:+ time.appendInt (Z.abs (off `quot` 60) / 60) 2
            +:+ String ":" (time.appendInt (Z.abs (off `quot` 60) mod 60) 2)) = zone
    /\ time.parseFraction zone = Ok (0, zone)
    /\ time.parseZone zone = Ok (off, "")).
  { destruct (Z.eqb_spec off 0) as [->|Hoff].
    - eexists. split; [reflexivity|]. split; reflexivity.
    - eexists. split; [reflexivity|]. split.
      + apply parseFraction_zone.
        destruct (off `quot` 60 <? 0); autorewrite with str; eauto.
      + destruct Hl as [_ Hmod]. apply Z.mod_divide in Hmod as [k ->]; [|lia].
        rewrite Z.quot_mul by lia.
        rewrite parseZone_offset by (Z.div_mod_to_equations; lia).
        do 2 f_equal.
        pose proof (Z.div_mod (Z.abs k) 60 ltac:(lia)).
        destruct (Z.ltb_spec k 0); lia. }
  destruct Hzone as (zone & -> & Hfrac & Hzone).
  rewrite Hfrac. cbn [mbind outcome_bind]. rewrite Hzone. cbn [mbind outcome_bind].
  destruct (Z.ltb_spec d 1); [lia|]. destruct (Z.ltb_spec (time.daysIn mo y) d); [lia|].
  cbn [orb]. do 2 f_equal; lia.
Qed.

(** *** The claim *)

(** C5, the claim as stated fails for the time type: [ToString] writes a
    time with the layout [RFC3339], which has no fraction of a second, so a
    valid time with nanoseconds is read back without them. *)
Lemma time_round_trip_counterexample :
  in_domain EtcdTime (time.mkTime 2018 8 30 12 0 0 500000000 0)
  /\ (s ← ToString EtcdTime (SetTime (time.mkTime 2018 8 30 12 0 0 500000000 0));
      FromString EtcdTime s)
     = Ok (time.mkTime 2018 8 30 12 0 0 0 0)
  /\ (s ← ToString EtcdTime (SetTime (time.mkTime 2018 8 30 12 0 0 500000000 0));
      FromString EtcdTime s)
     <> Ok (time.mkTime 2018 8 30 12 0 0 500000000 0).
Proof.
  split; [reflexivity|]. split; [vm_compute; reflexivity | vm_compute; discriminate].
Qed.

(** Other valid times that do not come back: a year of five digits is not
    parsed, and the seconds of an offset are dropped. *)
Example time_round_trip_year_offset :
  FromString EtcdTime (time.Format (time.mkTime 10000 1 1 0 0 0 0 0)) = Err ErrTimeParse
  /\ FromString EtcdTime (time.Format (time.mkTime 1900 1 1 0 0 0 0 1172))
     = Ok (time.mkTime 1900 1 1 0 0 0 0 1140).
Proof. split; vm_compute; reflexivity. Qed.

(** C5, amended: for the identifier, text, signed integer, unsigned integer
    and boolean types, every value written with [ToString] is read back by
    [FromString] as the same value. For the time type this holds for the
    valid times that the layout can hold: a year from 0 to 9999, no fraction
    of a second, an offset of whole minutes. *)
Theorem scalar_round_trip (T : etcd_type) (v : carrier T) :
  T <> EtcdBytes ->
  in_domain T v ->
  in_layout_domain T v ->
  exists s, ToString T (PNew v) = Ok s /\ FromString T s = Ok v.
Proof.
  intros Hbytes Hdom Hlay. destruct T; cbn [ToString FromString load mbind outcome_bind].
  - eexists. split; [reflexivity|]. by apply Parse_Format.
  - eexists. split; reflexivity.
  - eexists. split; reflexivity.
  - eexists. split; [reflexivity|]. by apply ParseInt_FormatInt.
  - eexists. split; [reflexivity|]. by apply ParseUint_FormatUint.
  - eexists. split; [reflexivity|]. apply ParseBool_FormatBool.
  - congruence.
Qed.

Lemma scalar_round_trip_witness :
  exists s, ToString EtcdTime (PNew (time.mkTime 2018 8 30 12 0 0 0 0)) = Ok s
            /\ FromString EtcdTime s = Ok (time.mkTime 2018 8 30 12 0 0 0 0).
Proof.
  apply (scalar_round_trip EtcdTime (time.mkTime 2018 8 30 12 0 0 0 0)).
  - discriminate.
  - reflexivity.
  - reflexivity.
Defined.

(** * Further properties of the code *)

(** ** Path resolution *)

Lemma pathReplace_range_ok_passes pathvars inslice l :
  forall path key,
    pathReplace_range l path pathvars inslice = Ok key ->
    forall q, q ∈ l -> passes pathvars inslice q.
Proof.
  induction l as [|p l IH]; intros path key Hok q Hq; [by apply elem_of_nil in Hq|].
  cbn [pathReplace_range] in Hok.
  destruct (strings.HasPrefix p ":") eqn:Hpre.
  - destruct ((strings.TrimPrefix p ":" =? "@")%string && inslice) eqn:Hat;
      [discriminate Hok|].
    destruct (pathvars !! strings.TrimPrefix p ":") as [val|] eqn:Hval;
      [|discriminate Hok].
    apply elem_of_cons in Hq as [->|Hq]; [|by eapply IH].
    intros _. split; [|by eexists].
    intros -> ->. apply andb_false_iff in Hat as [Hat|Hat]; discriminate Hat.
  - apply elem_of_cons in Hq as [->|Hq]; [|by eapply IH].
    intros Hpre'. congruence.
Qed.

(** X1: The template resolves exactly when each of its segments passes: a
    segment without the marker, or a variable of the table that is not the
    accumulator inside a collection. *)
Theorem pathReplace_succeeds_iff (path : string) (pathvars : gmap string string)
    (inslice : bool) :
  (exists key, pathReplace path pathvars inslice = Ok key)
  <-> (forall q, q ∈ strings.Split path "/" -> passes pathvars inslice q).
Proof.
  unfold pathReplace. split.
  - intros [key Hok]. by eapply pathReplace_range_ok_passes.
  - intros Hall.
    destruct (pathReplace_range_passes pathvars inslice
                (strings.Split path "/") [] Hall path) as [path' Heq].
    rewrite app_nil_r in Heq. by exists path'.
Qed.

Lemma Split_occurs (c sep : ascii) (s : string) :
  occurs c s = false ->
  forall q, q ∈ strings.Split s sep -> occurs c q = false.
Proof.
  induction s as [|a s IH]; intros Hocc q Hq.
  - apply list_elem_of_singleton in Hq as ->. reflexivity.
  - cbn [occurs] in Hocc. apply orb_false_iff in Hocc as [Ha Hs].
    cbn [strings.Split] in Hq. destruct (Ascii.eqb a sep).
    + apply elem_of_cons in Hq as [->|Hq]; [reflexivity | by apply IH].
    + destruct (strings.Split s sep) as [|seg segs] eqn:E.
      * apply list_elem_of_singleton in Hq as ->. cbn [occurs]. by rewrite Ha.
      * apply elem_of_cons in Hq as [->|Hq].
        -- cbn [occurs]. rewrite Ha. apply IH; [done | by left].
        -- apply IH; [done | by right].
Qed.

Lemma HasPrefix_occurs (q : string) :
  occurs ":" q = false -> strings.HasPrefix q ":" = false.
Proof.
  unfold strings.HasPrefix. destruct q as [|c q]; [reflexivity|].
  cbn [occurs String.prefix]. intros H. apply orb_false_iff in H as [H _].
  destruct (Ascii.ascii_dec ":" c) as [<-|]; [|reflexivity].
  by rewrite Ascii.eqb_refl in H.
Qed.

Lemma pathReplace_range_literal pathvars inslice l :
  (forall q, q ∈ l -> strings.HasPrefix q ":" = false) ->
  forall path, pathReplace_range l path pathvars inslice = Ok path.
Proof.
  induction l as [|p l IH]; intros Hl path; [reflexivity|].
  cbn [pathReplace_range]. rewrite (Hl p) by (by left).
  apply IH. intros q Hq. apply Hl. by right.
Qed.

(** X2: A template without the marker [':'] is the key, whatever the table
    holds and inside or outside a collection. *)
Theorem pathReplace_literal (path : string) (pathvars : gmap string string)
    (inslice : bool) :
  occurs ":" path = false ->
  pathReplace path pathvars inslice = Ok path.
Proof.
  intros Hocc. unfold pathReplace. apply pathReplace_range_literal.
  intros q Hq. apply HasPrefix_occurs. by eapply Split_occurs.
Qed.

Lemma pathReplace_literal_witness :
  pathReplace "/path/test/name" ∅ true = Ok "/path/test/name".
Proof. apply pathReplace_literal. reflexivity. Defined.

Lemma Replace_from_no_marker (s old new : string) (c : ascii) (old' : string) :
  old = String c old' ->
  occurs c s = false ->
  strings.Replace_from 0 s old new = s.
Proof.
  intros -> Hocc. induction s as [|a s IH]; [reflexivity|].
  cbn [occurs] in Hocc. apply orb_false_iff in Hocc as [Ha Hs].
  cbn [strings.Replace_from String.prefix].
  destruct (Ascii.ascii_dec c a) as [<-|]; [by rewrite Ascii.eqb_refl in Ha|].
  by rewrite IH.
Qed.

(** X3: The tag of a field of a nested record, [":@"] followed by a literal
    path: outside a collection it resolves to the accumulated key followed
    by that path. *)
Theorem pathReplace_accumulator (s K : string) (pathvars : gmap string string) :
  pathvars !! "@" = Some K ->
  occurs ":" s = false ->
  pathReplace (":@/" +:+ s) pathvars false = Ok (K +:+ "/" +:+ s).
Proof.
  intros HK Hocc. unfold pathReplace.
  change (":@/" +:+ s) with (String ":" (String "@" (String "/" s))).
  assert (Hsplit : strings.Split (String ":" (String "@" (String "/" s))) "/"
                   = ":@" :: strings.Split s "/").
  { cbn [strings.Split]. change (Ascii.eqb ":" "/") with false.
    change (Ascii.eqb "@" "/") with false. change (Ascii.eqb "/" "/") with true.
    cbv iota. reflexivity. }
  rewrite Hsplit. cbn [pathReplace_range].
  change (strings.HasPrefix ":@" ":") with true.
  change (strings.TrimPrefix ":@" ":") with "@". rewrite HK.
  cbn [andb String.eqb Ascii.eqb Bool.eqb]. cbv iota.
  rewrite pathReplace_range_literal.
  - f_equal. unfold strings.Replace.
    cbn [strings.Replace_from String.prefix String.length Nat.sub].
    destruct (Ascii.ascii_dec ":" ":") as [_|Hne]; [|by destruct Hne].
    destruct (Ascii.ascii_dec "@" "@") as [_|Hne]; [|by destruct Hne].
    destruct (Ascii.ascii_dec ":" "/") as [Hne|_]; [discriminate Hne|].
    by rewrite (Replace_from_no_marker s ":@" K ":" "@").
  - intros q Hq. apply HasPrefix_occurs. by eapply Split_occurs.
Qed.

Lemma pathReplace_accumulator_witness :
  pathReplace (":@/" +:+ "bool_key") {[ "@" := "/path/sub/to/child" ]} false
  = Ok ("/path/sub/to/child" +:+ "/" +:+ "bool_key").
Proof.
  apply pathReplace_accumulator.
  - reflexivity.
  - reflexivity.
Defined.

(** ** The walkers on every record *)

(** Induction on a value, with the property known of the fields of a
    struct and of the elements of a slice. *)
Lemma Value_nested_ind (P : Value -> Prop) :
  (forall T e, P (VPtr T e)) ->
  (forall fields, Forall (fun f => P f.2) fields -> P (VStruct fields)) ->
  (forall elems, Forall P elems -> P (VSlice elems)) ->
  P VOther ->
  forall v, P v.
Proof.
  intros Hptr Hstruct Hslice Hother.
  fix IH 1. intros [T e|fields|elems|].
  - apply Hptr.
  - apply Hstruct. induction fields as [|[tag f] fields IHf]; constructor; [apply IH | exact IHf].
  - apply Hslice. induction elems as [|f elems IHe]; constructor; [apply IH | exact IHe].
  - apply Hother.
Qed.

Lemma pathReplace_range_no_panic pathvars inslice l :
  forall path, no_panic (pathReplace_range l path pathvars inslice).
Proof.
  induction l as [|p l IH]; intros path; cbn [pathReplace_range]; [exact I|].
  destruct (strings.HasPrefix p ":"); [|apply IH].
  destruct (_ && _); [exact I|].
  destruct (pathvars !! _); [apply IH | exact I].
Qed.

Lemma pathReplace_no_panic path pathvars inslice :
  pathReplace path pathvars inslice <> Panic.
Proof.
  intros H. pose proof (pathReplace_range_no_panic pathvars inslice
                          (strings.Split path "/") path) as Hn.
  unfold pathReplace in H. rewrite H in Hn. exact Hn.
Qed.

Lemma createSliceGetOps_ok elems loc etcdKey inslice pathvar :
  match createSliceGetOps elems loc etcdKey inslice with
  | Ok (ops, cbs) => get_result_ok pathvar (Ok (ops, cbs, pathvar))
  | Err _ => True
  | Panic => False
  end.
Proof.
  destruct elems as [|[T e|fs|es|] elems]; cbn; try done.
  destruct (IsGet e); cbn; done.
Qed.

Lemma createStructGetOps_range_ok fields :
  Forall (fun f => forall fs, f.2 = VStruct fs ->
            forall loc pathvar inslice,
              get_result_ok pathvar (createStructGetOps f.2 loc pathvar inslice)) fields ->
  forall i loc pathvar0 pathvar inslice etcdOps callbacks,
    length etcdOps = length callbacks ->
    forallb is_read etcdOps = true ->
    (forall k, k <> "@" -> pathvar !! k = pathvar0 !! k) ->
    get_result_ok pathvar0
      (createStructGetOps_range fields i loc pathvar inslice etcdOps callbacks).
Proof.
  induction 1 as [|[[tag|] field] fields Hfield _ IH];
    intros i loc pathvar0 pathvar inslice ops cbs Hlen Hread Htab;
    cbn [createStructGetOps_range].
  - done.
  - destruct (pathReplace tag pathvar inslice) as [etcdKey|e|] eqn:Hkey;
      [|exact I|by apply pathReplace_no_panic in Hkey].
    assert (Htab' : forall k, k <> "@" -> <["@" := etcdKey]> pathvar !! k = pathvar0 !! k).
    { intros k Hk. rewrite lookup_insert_ne by done. by apply Htab. }
    destruct field as [T e|fs|elems|].
    + destruct (IsGet e); apply IH; try done.
      * rewrite !length_app. cbn. lia.
      * rewrite forallb_app, Hread. reflexivity.
    + specialize (Hfield fs eq_refl (loc ++ [i])%list (<["@" := etcdKey]> pathvar) inslice).
      cbn [snd] in Hfield.
      destruct (createStructGetOps (VStruct fs) _ _ _) as [[[newOps newCbs] pv']| |];
        [|exact I|destruct Hfield].
      destruct Hfield as (Hl & Hr & Ht). apply IH.
      * rewrite !length_app. lia.
      * rewrite forallb_app, Hread, Hr. reflexivity.
      * intros k Hk. rewrite Ht by done. by apply Htab'.
    + pose proof (createSliceGetOps_ok elems (loc ++ [i])%list etcdKey true pathvar) as Hs.
      destruct (createSliceGetOps _ _ _ _) as [[newOps newCbs]| |];
        [|exact I|destruct Hs].
      destruct Hs as (Hl & Hr & _). apply IH; [| |done].
      * rewrite !length_app. lia.
      * rewrite forallb_app, Hread, Hr. reflexivity.
    + by apply IH.
  - by apply IH.
Qed.

Lemma createStructGetOps_ok (value : Value) :
  forall fs, value = VStruct fs ->
  forall loc pathvar inslice,
    get_result_ok pathvar (createStructGetOps value loc pathvar inslice).
Proof.
  induction value as [T e|fields IH|elems _|] using Value_nested_ind;
    intros fs Hfs; try discriminate Hfs.
  intros loc pathvar inslice. rewrite createStructGetOps_unfold.
  by apply createStructGetOps_range_ok.
Qed.

Lemma IsSet_ToString T (e : ptr (carrier T)) :
  IsSet e = true -> exists val, ToString T e = Ok val.
Proof.
  intros H. apply ToString_not_nil. intros ->. discriminate H.
Qed.

Lemma leafSetOps_ok T (e : ptr (carrier T)) etcdKey :
  exists newOps, leafSetOps T e etcdKey = Ok newOps /\ forallb is_write newOps = true.
Proof.
  unfold leafSetOps. destruct (IsDelete e); [by eexists|].
  destruct (IsSet e) eqn:Hset; [|by eexists].
  destruct (IsSet_ToString T e Hset) as [val ->]. by eexists.
Qed.

Lemma createSliceSetOps_range_ok uuid_New elems :
  forall etcdKey etcdOps n,
    forallb is_write etcdOps = true ->
    match createSliceSetOps_range uuid_New elems etcdKey etcdOps n with
    | Ok (ops, n') => forallb is_write ops = true /\ (n <= n')%nat
    | Err _ => True
    | Panic => False
    end.
Proof.
  induction elems as [|field elems IH]; intros etcdKey ops n Hw;
    cbn [createSliceSetOps_range]; [done|].
  destruct field as [T e|fs|es|]; [|exact I|by apply IH|by apply IH].
  destruct (IsSet e) eqn:Hset; [|by apply IH].
  cbn [GenerateUniqueID]. destruct (IsSet_ToString T e Hset) as [val ->].
  cbn [mbind outcome_bind].
  specialize (IH (etcdKey +:+ "/" +:+ uuid_New n)
                (ops ++ [OpPut (etcdKey +:+ "/" +:+ uuid_New n) val])%list (S n)).
  destruct (createSliceSetOps_range _ _ _ _ _) as [[ops' n']| |].
  - destruct IH as [Hw' Hn]; [by rewrite forallb_app, Hw|]. split; [done | lia].
  - exact I.
  - apply IH. by rewrite forallb_app, Hw.
Qed.

Lemma createSliceSetOps_ok uuid_New elems etcdKey inslice n :
  match createSliceSetOps uuid_New elems etcdKey inslice n with
  | Ok (ops, n') => forallb is_write ops = true /\ (n <= n')%nat
  | Err _ => True
  | Panic => False
  end.
Proof.
  unfold createSliceSetOps.
  destruct elems as [|[T e|fs|es|] [|f2 elems]];
    try (by apply createSliceSetOps_range_ok).
  destruct (IsDelete e); [done | by apply createSliceSetOps_range_ok].
Qed.

Lemma createStructSetOps_range_ok uuid_New fields :
  Forall (fun f => forall fs, f.2 = VStruct fs ->
            forall pathvar inslice n,
              set_result_ok pathvar n (createStructSetOps uuid_New f.2 pathvar inslice n))
    fields ->
  forall pathvar0 n0 pathvar inslice etcdOps n,
    forallb is_write etcdOps = true ->
    (forall k, k <> "@" -> pathvar !! k = pathvar0 !! k) ->
    (n0 <= n)%nat ->
    set_result_ok pathvar0 n0
      (createStructSetOps_range uuid_New fields pathvar inslice etcdOps n).
Proof.
  induction 1 as [|[[tag|] field] fields Hfield _ IH];
    intros pathvar0 n0 pathvar inslice ops n Hw Htab Hn;
    cbn [createStructSetOps_range].
  - done.
  - destruct (pathReplace tag pathvar inslice) as [etcdKey|e|] eqn:Hkey;
      [|exact I|by apply pathReplace_no_panic in Hkey].
    destruct field as [T e|fs|elems|].
    + destruct (leafSetOps_ok T e etcdKey) as (newOps & -> & Hw').
      apply IH; try done. by rewrite forallb_app, Hw, Hw'.
    + specialize (Hfield fs eq_refl (<["@" := etcdKey]> pathvar) inslice n).
      cbn [snd] in Hfield.
      destruct (createStructSetOps uuid_New (VStruct fs) _ _ _)
        as [[[newOps pv'] n']| |]; [|exact I|destruct Hfield].
      destruct Hfield as (Hw' & Ht & Hn'). apply IH.
      * by rewrite forallb_app, Hw, Hw'.
      * intros k Hk. rewrite Ht by done. rewrite lookup_insert_ne by done.
        by apply Htab.
      * lia.
    + pose proof (createSliceSetOps_ok uuid_New elems etcdKey true n) as Hs.
      destruct (createSliceSetOps _ _ _ _ _) as [[newOps n']| |];
        [|exact I|destruct Hs].
      destruct Hs as (Hw' & Hn'). apply IH; [|done|lia].
      by rewrite forallb_app, Hw, Hw'.
    + by apply IH.
  - by apply IH.
Qed.

Lemma createStructSetOps_ok uuid_New (value : Value) :
  forall fs, value = VStruct fs ->
  forall pathvar inslice n,
    set_result_ok pathvar n (createStructSetOps uuid_New value pathvar inslice n).
Proof.
  induction value as [T e|fields IH|elems _|] using Value_nested_ind;
    intros fs Hfs; try discriminate Hfs.
  intros pathvar inslice n. rewrite createStructSetOps_unfold.
  by apply createStructSetOps_range_ok.
Qed.

(** X4: On the read path a record gives as many callbacks as operations, so
    that the responses of the store can be applied by position. *)
Theorem read_callbacks_match_ops fields loc pathvar inslice etcdOps callbacks pathvar' :
  createStructGetOps (VStruct fields) loc pathvar inslice
  = Ok (etcdOps, callbacks, pathvar') ->
  length etcdOps = length callbacks.
Proof.
  intros H. pose proof (createStructGetOps_ok (VStruct fields) fields eq_refl
                          loc pathvar inslice) as Hok.
  rewrite H in Hok. apply Hok.
Qed.

(** X5: The read path builds [Get]s only, with or without prefix: a [Get] of a
    record never asks the store to write or delete. *)
Theorem read_path_only_reads fields loc pathvar inslice etcdOps callbacks pathvar' :
  createStructGetOps (VStruct fields) loc pathvar inslice
  = Ok (etcdOps, callbacks, pathvar') ->
  forallb is_read etcdOps = true.
Proof.
  intros H. pose proof (createStructGetOps_ok (VStruct fields) fields eq_refl
                          loc pathvar inslice) as Hok.
  rewrite H in Hok. apply Hok.
Qed.

(** X6: The write path builds [Put]s and [Delete]s only. *)
Theorem write_path_only_writes uuid_New fields pathvar inslice n etcdOps pathvar' n' :
  createStructSetOps uuid_New (VStruct fields) pathvar inslice n
  = Ok (etcdOps, pathvar', n') ->
  forallb is_write etcdOps = true.
Proof.
  intros H. pose proof (createStructSetOps_ok uuid_New (VStruct fields) fields eq_refl
                          pathvar inslice n) as Hok.
  rewrite H in Hok. apply Hok.
Qed.

(** X7: Of the caller's variable table the walkers assign the entry ["@"]
    only: after a walk of either path every other variable is as the
    caller gave it. *)
Theorem walkers_keep_variables uuid_New fields loc pathvar inslice n :
  (forall etcdOps callbacks pathvar',
     createStructGetOps (VStruct fields) loc pathvar inslice
     = Ok (etcdOps, callbacks, pathvar') ->
     forall k, k <> "@" -> pathvar' !! k = pathvar !! k)
  /\ (forall etcdOps pathvar' n',
        createStructSetOps uuid_New (VStruct fields) pathvar inslice n
        = Ok (etcdOps, pathvar', n') ->
        forall k, k <> "@" -> pathvar' !! k = pathvar !! k).
Proof.
  split.
  - intros ops cbs pv' H.
    pose proof (createStructGetOps_ok (VStruct fields) fields eq_refl
                  loc pathvar inslice) as Hok.
    rewrite H in Hok. apply Hok.
  - intros ops pv' n' H.
    pose proof (createStructSetOps_ok uuid_New (VStruct fields) fields eq_refl
                  pathvar inslice n) as Hok.
    rewrite H in Hok. apply Hok.
Qed.

(** X8: The walkers do not panic on a record: each returns its operations or
    an error. On the write path [ToString] is called on pointers that are
    not nil only, so the methods of [EtcdInt] and [EtcdBool], which have no
    nil check, are safe there. *)
Theorem walkers_do_not_panic uuid_New fields loc pathvar inslice n :
  createStructGetOps (VStruct fields) loc pathvar inslice <> Panic
  /\ createStructSetOps uuid_New (VStruct fields) pathvar inslice n <> Panic.
Proof.
  split; intros H.
  - pose proof (createStructGetOps_ok (VStruct fields) fields eq_refl
                  loc pathvar inslice) as Hok.
    rewrite H in Hok. exact Hok.
  - pose proof (createStructSetOps_ok uuid_New (VStruct fields) fields eq_refl
                  pathvar inslice n) as Hok.
    rewrite H in Hok. exact Hok.
Qed.

Lemma read_callbacks_match_ops_witness :
  length [OpGet "/k"; OpGetPrefix "/s/"]
  = length [FieldCallback [0%nat] EtcdInt; SliceCallback [1%nat] EtcdUuid].
Proof.
  apply (read_callbacks_match_ops
           [(Some "/k", VPtr EtcdInt GetInt); (Some "/s", VSlice [VPtr EtcdUuid GetUuid])]
           [] ∅ false _ _ (<["@" := "/s"]> ∅)).
  vm_compute. reflexivity.
Defined.

Lemma read_path_only_reads_witness :
  forallb is_read [OpGet "/k"; OpGetPrefix "/s/"] = true.
Proof.
  apply (read_path_only_reads
           [(Some "/k", VPtr EtcdInt GetInt); (Some "/s", VSlice [VPtr EtcdUuid GetUuid])]
           [] ∅ false _ [FieldCallback [0%nat] EtcdInt; SliceCallback [1%nat] EtcdUuid]
           (<["@" := "/s"]> ∅)).
  vm_compute. reflexivity.
Defined.

Lemma write_path_only_writes_witness :
  forallb is_write [OpPut "/k" "7"; OpDelete "/d"; OpDeletePrefix "/s/"] = true.
Proof.
  apply (write_path_only_writes (fun _ => "")
           [(Some "/k", VPtr EtcdInt (SetInt 7)); (Some "/d", VPtr EtcdBool DeleteBool);
            (Some "/s", VSlice [VPtr EtcdUuid DeleteUuid])]
           ∅ false 0%nat _ ∅ 0%nat).
  vm_compute. reflexivity.
Defined.

Lemma walkers_keep_variables_witness :
  (<["@" := "/c"]> ({[ "var" := "sub" ]} : gmap string string)) !! "var"
  = ({[ "var" := "sub" ]} : gmap string string) !! "var".
Proof.
  destruct (walkers_keep_variables (fun _ => "")
              [(Some "/c", VStruct [(Some ":@/:var", VPtr EtcdInt GetInt)])]
              [] {[ "var" := "sub" ]} false 0%nat) as [Hget _].
  apply (Hget [OpGet "/c/sub"] [FieldCallback [0%nat; 0%nat] EtcdInt]).
  - vm_compute. reflexivity.
  - discriminate.
Defined.

(** ** The write path: how the fields of a record compose *)

Lemma createStructSetOps_range_app uuid_New fs1 fs2 :
  forall pathvar inslice etcdOps n,
    createStructSetOps_range uuid_New (fs1 ++ fs2) pathvar inslice etcdOps n
    = match createStructSetOps_range uuid_New fs1 pathvar inslice etcdOps n with
      | Ok (ops1, pathvar1, n1) =>
          createStructSetOps_range uuid_New fs2 pathvar1 inslice ops1 n1
      | Err e => Err e
      | Panic => Panic
      end.
Proof.
  induction fs1 as [|[[tag|] field] fs1 IH]; intros pathvar inslice ops n;
    cbn [app createStructSetOps_range]; [reflexivity| |apply IH].
  destruct (pathReplace tag pathvar inslice) as [etcdKey| |]; try reflexivity.
  destruct field as [T e|fs|elems|]; try apply IH.
  - destruct (leafSetOps T e etcdKey); try reflexivity; apply IH.
  - destruct (createStructSetOps _ _ _ _ _) as [[[newOps pv'] k']| |];
      try reflexivity; apply IH.
  - destruct (createSliceSetOps _ _ _ _ _) as [[newOps k']| |];
      try reflexivity; apply IH.
Qed.

(** X9: The operations of a record are those of its first fields followed by
    those of its other fields, which are walked with the table and the
    count of identifiers that the first ones left; an error of the first
    fields is the error of the record. *)
Theorem createStructSetOps_app uuid_New fs1 fs2 pathvar inslice n :
  createStructSetOps uuid_New (VStruct (fs1 ++ fs2)) pathvar inslice n
  = match createStructSetOps uuid_New (VStruct fs1) pathvar inslice n with
    | Ok (ops1, pathvar1, n1) =>
        prepend_ops ops1 (createStructSetOps uuid_New (VStruct fs2) pathvar1 inslice n1)
    | Err e => Err e
    | Panic => Panic
    end.
Proof.
  rewrite !createStructSetOps_unfold, createStructSetOps_range_app.
  destruct (createStructSetOps_range uuid_New fs1 pathvar inslice [] n)
    as [[[ops1 pv1] n1]| |]; try reflexivity.
  rewrite createStructSetOps_unfold. apply createStructSetOps_range_acc.
Qed.

(** X10: A field without the tag [path] is ignored on the write path, whatever
    it holds and wherever it stands in the record. *)
Theorem createStructSetOps_untagged uuid_New fs1 (v : Value) fs2 pathvar inslice n :
  createStructSetOps uuid_New (VStruct (fs1 ++ (None, v) :: fs2)) pathvar inslice n
  = createStructSetOps uuid_New (VStruct (fs1 ++ fs2)) pathvar inslice n.
Proof.
  rewrite !createStructSetOps_unfold, !createStructSetOps_range_app.
  destruct (createStructSetOps_range uuid_New fs1 pathvar inslice [] n)
    as [[[ops1 pv1] n1]| |]; reflexivity.
Qed.

(** ** The write path of a collection *)

Lemma createSliceSetOps_range_struct uuid_New fs elems :
  In (VStruct fs) elems ->
  forall etcdKey etcdOps n,
    createSliceSetOps_range uuid_New elems etcdKey etcdOps n = Err ErrSliceOfStructs.
Proof.
  induction elems as [|field elems IH]; intros Hin etcdKey ops n; [destruct Hin|].
  cbn [createSliceSetOps_range].
  destruct field as [T e|fs'|es|].
  - destruct Hin as [Heq|Hin]; [discriminate Heq|].
    destruct (IsSet e) eqn:Hset; [|by apply IH].
    cbn [GenerateUniqueID]. destruct (IsSet_ToString T e Hset) as [val ->].
    cbn [mbind outcome_bind]. by apply IH.
  - reflexivity.
  - destruct Hin as [Heq|Hin]; [discriminate Heq | by apply IH].
  - destruct Hin as [Heq|Hin]; [discriminate Heq | by apply IH].
Qed.

(** X11: A collection with a struct among its elements is refused with "Cannot
    set a slice of structs": no operation of the collection is returned,
    also for the elements before the struct. *)
Theorem createSliceSetOps_struct uuid_New fs elems etcdKey inslice n :
  In (VStruct fs) elems ->
  createSliceSetOps uuid_New elems etcdKey inslice n = Err ErrSliceOfStructs.
Proof.
  intros Hin. unfold createSliceSetOps.
  destruct elems as [|[T e|fs'|es|] [|f2 elems]];
    try (by apply (createSliceSetOps_range_struct uuid_New fs)).
  destruct Hin as [Heq|[]]. discriminate Heq.
Qed.

Lemma createSliceSetOps_struct_witness :
  createSliceSetOps (fun _ => "id")
    [VPtr EtcdString (SetString "a"); VStruct []] "/s" true 0
  = Err ErrSliceOfStructs.
Proof.
  apply (createSliceSetOps_struct (fun _ => "id") []).
  right. left. reflexivity.
Defined.

Lemma string_app_empty_r (s : string) : s +:+ "" = s.
Proof.
  induction s as [|c s IH]; autorewrite with str; [reflexivity | by rewrite IH].
Qed.

Lemma string_length_app (s1 s2 : string) :
  String.length (s1 +:+ s2) = (String.length s1 + String.length s2)%nat.
Proof.
  induction s1 as [|c s1 IH]; autorewrite with str; cbn [String.length];
    [reflexivity | by rewrite IH].
Qed.

Lemma createSliceSetOps_range_keys uuid_New K elems :
  forall etcdKey etcdOps n ops n',
    (etcdKey = K \/ exists r, etcdKey = K +:+ "/" +:+ r) ->
    Forall (fun op => exists r val, op = OpPut (K +:+ "/" +:+ r) val) etcdOps ->
    Forall (fun op => String.length (key_of op) <= String.length etcdKey)%nat etcdOps ->
    NoDup (map key_of etcdOps) ->
    createSliceSetOps_range uuid_New elems etcdKey etcdOps n = Ok (ops, n') ->
    Forall (fun op => exists r val, op = OpPut (K +:+ "/" +:+ r) val) ops
    /\ NoDup (map key_of ops).
Proof.
  induction elems as [|field elems IH]; intros etcdKey etcdOps n ops n' Hkey Hops Hlen Hnd H;
    cbn [createSliceSetOps_range] in H.
  - injection H as <- <-. done.
  - assert (Hskip : createSliceSetOps_range uuid_New elems etcdKey etcdOps n = Ok (ops, n') ->
                    Forall (fun op => exists r val, op = OpPut (K +:+ "/" +:+ r) val) ops
                    /\ NoDup (map key_of ops)) by (by apply IH).
    destruct field as [T e|fs|es|]; [|discriminate H|by apply Hskip|by apply Hskip].
    destruct (IsSet e) eqn:Hset; [|by apply Hskip].
    cbn [GenerateUniqueID] in H. destruct (IsSet_ToString T e Hset) as [val Hval].
    rewrite Hval in H. cbn [mbind outcome_bind] in H.
    assert (Hnew : exists r, etcdKey +:+ "/" +:+ uuid_New n = K +:+ "/" +:+ r).
    { destruct Hkey as [->|[r ->]]; [by eexists|].
      exists (r +:+ "/" +:+ uuid_New n). by rewrite !string_app_assoc. }
    assert (Hlonger : (String.length etcdKey
                       < String.length (etcdKey +:+ "/" +:+ uuid_New n))%nat).
    { rewrite string_length_app. autorewrite with str. cbn [String.length]. lia. }
    apply (IH _ _ _ _ _ (or_intror Hnew)) in H; [done| | |].
    + apply Forall_app. split; [done|]. constructor; [|constructor].
      destruct Hnew as [r ->]. by eexists _, _.
    + apply Forall_app. split.
      * eapply Forall_impl; [exact Hlen|]. cbn. intros op Hop. lia.
      * constructor; [|constructor]. cbn. lia.
    + rewrite map_app. cbn [map key_of]. apply NoDup_app. split; [done|].
      split; [|apply NoDup_singleton].
      intros k Hk Hk'. apply list_elem_of_singleton in Hk' as ->.
      apply list_elem_of_fmap in Hk as (op & Heq & Hop).
      rewrite Forall_forall in Hlen. specialize (Hlen op Hop).
      change (key_of <$> etcdOps) with (map key_of etcdOps) in *.
      rewrite <- Heq in Hlen. lia.
Qed.

(** X12: The keys that a collection is written at all start with the key of
    the collection and the separator, so the [Get] and the [Delete] with
    that prefix reach every one of them; and no two elements of one call are
    written at the same key, even if the generator repeats an identifier. *)
Theorem createSliceSetOps_keys uuid_New elems etcdKey inslice n ops n' :
  createSliceSetOps uuid_New elems etcdKey inslice n = Ok (ops, n') ->
  (ops = [OpDeletePrefix (etcdKey +:+ "/")]
   \/ Forall (fun op => exists r val, op = OpPut (etcdKey +:+ "/" +:+ r) val) ops)
  /\ NoDup (map key_of ops).
Proof.
  unfold createSliceSetOps. intros H.
  assert (Hrange : createSliceSetOps_range uuid_New elems etcdKey [] n = Ok (ops, n') ->
                   (ops = [OpDeletePrefix (etcdKey +:+ "/")]
                    \/ Forall (fun op => exists r val,
                                 op = OpPut (etcdKey +:+ "/" +:+ r) val) ops)
                   /\ NoDup (map key_of ops)).
  { intros Hr.
    apply (createSliceSetOps_range_keys uuid_New etcdKey) in Hr;
      [|by left|constructor|constructor|constructor].
    destruct Hr as [Hf Hnd]. split; [by right | done]. }
  destruct elems as [|[T e|fs|es|] [|f2 elems]]; try (by apply Hrange).
  destruct (IsDelete e); [|by apply Hrange].
  injection H as <- <-. split; [by left|]. apply NoDup_singleton.
Qed.

Lemma createSliceSetOps_keys_witness :
  ([OpPut "/s/id" "a"; OpPut "/s/id/id" "b"] = [OpDeletePrefix ("/s" +:+ "/")]
   \/ Forall (fun op => exists r val, op = OpPut ("/s" +:+ "/" +:+ r) val)
        [OpPut "/s/id" "a"; OpPut "/s/id/id" "b"])
  /\ NoDup (map key_of [OpPut "/s/id" "a"; OpPut "/s/id/id" "b"]).
Proof.
  apply (createSliceSetOps_keys (fun _ => "id")
           [VPtr EtcdString (SetString "a"); VPtr EtcdString (SetString "b")]
           "/s" true 0%nat _ 2%nat).
  reflexivity.
Defined.

(** ** The callbacks of the read path *)

Lemma SliceCallback_fill_ok T Kvs :
  forall elems elems',
    SliceCallback_fill T Kvs elems = (Ok (), elems') ->
    exists vals, decoded T Kvs vals
                 /\ elems' = (elems ++ map (fun a => VPtr T (PNew a)) vals)%list.
Proof.
  induction Kvs as [|[k v] Kvs IH]; intros elems elems' H; cbn [SliceCallback_fill] in H.
  - injection H as <-. exists []. split; [constructor | by rewrite app_nil_r].
  - destruct (FromString T v) as [a| |] eqn:Hv; try discriminate H.
    apply IH in H as (vals & Hdec & ->).
    exists (a :: vals). split; [by constructor|]. by rewrite <- app_assoc.
Qed.

(** X13: When the callback of a collection returns no error, the collection
    holds one new element for each entry of the response, in the order of
    the response, each with the value its entry parses to; what the
    collection held before, the probe with the fetch sentinel included, is
    gone. *)
Theorem SliceCallback_call_ok loc T Kvs root root' :
  SliceCallback_call loc T (ResponseRange Kvs) root = (Ok (), root') ->
  exists vals, decoded T Kvs vals
               /\ root' = set_at loc (VSlice (map (fun a => VPtr T (PNew a)) vals)) root.
Proof.
  unfold SliceCallback_call.
  destruct (SliceCallback_fill T Kvs []) as [err elems] eqn:Hfill.
  intros H. injection H as -> <-.
  apply SliceCallback_fill_ok in Hfill as (vals & Hdec & ->). by exists vals.
Qed.

Lemma SliceCallback_call_ok_witness :
  exists vals, decoded EtcdUint [("/s/a", "7"); ("/s/b", "42")] vals
    /\ VStruct [(Some "/s", VSlice [VPtr EtcdUint (PNew 7); VPtr EtcdUint (PNew 42)])]
       = set_at [0%nat] (VSlice (map (fun a => VPtr EtcdUint (PNew a)) vals))
           (VStruct [(Some "/s", VSlice [VPtr EtcdUint GetUint])]).
Proof.
  apply (SliceCallback_call_ok [0%nat] EtcdUint [("/s/a", "7"); ("/s/b", "42")]
           (VStruct [(Some "/s", VSlice [VPtr EtcdUint GetUint])])).
  vm_compute. reflexivity.
Defined.

(** ** The parsers never panic *)

Lemma no_panic_bind {A B : Type} (m : outcome A) (k : A -> outcome B) :
  no_panic m -> (forall a, no_panic (k a)) -> no_panic (m ≫= k).
Proof. destruct m; cbn; auto. Qed.

Ltac no_panic_step :=
  match goal with
  | |- no_panic (Ok _) => exact I
  | |- no_panic (Err _) => exact I
  | |- no_panic (_ ≫= _) => apply no_panic_bind; [|intros ?]
  | |- no_panic (if ?b then _ else _) => destruct b
  | |- no_panic (match ?x with _ => _ end) => destruct x
  | |- no_panic (let '(_, _) := ?x in _) => destruct x
  end.

Lemma parseDigits_no_panic s : forall n, no_panic (strconv.parseDigits s n).
Proof.
  induction s as [|c s IH]; intros n; cbn [strconv.parseDigits]; [exact I|].
  destruct (strconv.digit_val c); [|exact I].
  destruct (_ <=? n); [exact I|]. cbv zeta. destruct (_ || _); [exact I | apply IH].
Qed.

Lemma ParseUint_no_panic s : no_panic (strconv.ParseUint s).
Proof. destruct s; [exact I | apply parseDigits_no_panic]. Qed.

Lemma ParseInt_no_panic s : no_panic (strconv.ParseInt s).
Proof.
  destruct s as [|c s]; [exact I|]. cbn [strconv.ParseInt].
  destruct (Ascii.eqb c "+"); [|destruct (Ascii.eqb c "-")];
    (apply no_panic_bind; [apply ParseUint_no_panic | intros un; repeat no_panic_step]).
Qed.

Lemma allDigits_no_panic s : forall x, no_panic (time.allDigits s x).
Proof.
  induction s as [|c s IH]; intros x; cbn [time.allDigits]; [exact I|].
  destruct (strconv.digit_val c); [apply IH | exact I].
Qed.

Lemma atoi_no_panic s : no_panic (time.atoi s).
Proof.
  unfold time.atoi.
  repeat first [ apply allDigits_no_panic
               | apply no_panic_bind; [apply allDigits_no_panic | intros ?]
               | no_panic_step ].
Qed.

Lemma getnum_no_panic s fixed : no_panic (time.getnum s fixed).
Proof. unfold time.getnum. repeat no_panic_step. Qed.

Lemma skip_no_panic s c : no_panic (time.skip s c).
Proof. unfold time.skip. repeat no_panic_step. Qed.

Lemma parseFraction_no_panic s : no_panic (time.parseFraction s).
Proof.
  unfold time.parseFraction, time.parseNanoseconds.
  repeat first [ apply atoi_no_panic
               | apply no_panic_bind; [apply atoi_no_panic | intros ?]
               | no_panic_step ].
Qed.

Lemma parseZone_no_panic s : no_panic (time.parseZone s).
Proof.
  unfold time.parseZone.
  repeat first [ apply getnum_no_panic
               | apply no_panic_bind; [apply getnum_no_panic | intros ?]
               | no_panic_step ].
Qed.

Lemma Parse_no_panic s : no_panic (time.Parse s).
Proof.
  unfold time.Parse.
  repeat first [ apply atoi_no_panic | apply getnum_no_panic | apply skip_no_panic
               | apply parseFraction_no_panic | apply parseZone_no_panic
               | apply no_panic_bind; [|intros ?]
               | no_panic_step ].
Qed.

Lemma decode_no_panic enc src : forall dbuf, no_panic (base64.decode enc src dbuf).
Proof.
  induction src as [|c src IH]; intros dbuf; cbn [base64.decode].
  - repeat no_panic_step.
  - destruct (base64.decodeMap enc c).
    + destruct dbuf as [|d0 [|d1 [|d2 [|d3 dbuf]]]]; try apply IH.
      apply no_panic_bind; [apply IH | intros ?; exact I].
    + destruct (_ || _); [apply IH | exact I].
Qed.

Lemma FromString_no_panic T s : no_panic (FromString T s).
Proof.
  destruct T; cbn [FromString]; try exact I.
  - apply Parse_no_panic.
  - apply ParseInt_no_panic.
  - apply ParseUint_no_panic.
  - unfold strconv.ParseBool. repeat no_panic_step.
  - apply decode_no_panic.
Qed.

(** ** [Get], when the store answers each operation *)

Lemma call_range cb Kvs root :
  exists root', call cb (ResponseRange Kvs) root = (Ok (), root')
                \/ exists e, call cb (ResponseRange Kvs) root = (Err e, root').
Proof.
  destruct cb as [loc T|loc T]; cbn [call].
  - unfold FieldCallback_call. destruct Kvs as [|[k v] Kvs]; [by eexists; left|].
    pose proof (FromString_no_panic T v) as Hnp.
    destruct (FromString T v); [by eexists; left | by eexists; right; eexists | destruct Hnp].
  - unfold SliceCallback_call.
    destruct (SliceCallback_fill T Kvs []) as [err elems] eqn:Hfill.
    assert (Hnp : no_panic err).
    { revert Hfill. generalize (@nil Value). induction Kvs as [|[k v] Kvs IH];
        intros acc Hfill; cbn [SliceCallback_fill] in Hfill.
      - by injection Hfill as <- _.
      - pose proof (FromString_no_panic T v) as Hv.
        destruct (FromString T v); [by eapply IH | by injection Hfill as <- _ | destruct Hv]. }
    destruct err as [[]| |]; [by eexists; left | by eexists; right; eexists | destruct Hnp].
Qed.

Lemma applyResponses_ranges Responses :
  forall callbacks root,
    length Responses = length callbacks ->
    forallb is_range Responses = true ->
    exists root', applyResponses Responses callbacks root = (Ok (), root')
                  \/ applyResponses Responses callbacks root = (Err ErrInvalidData, root').
Proof.
  induction Responses as [|r Responses IH]; intros [|cb cbs] root Hlen Hrange;
    try discriminate Hlen; cbn [applyResponses].
  - by eexists; left.
  - cbn [forallb] in Hrange. apply andb_true_iff in Hrange as [Hr Hrange].
    destruct r as [Kvs| |]; try discriminate Hr.
    destruct (call_range cb Kvs root) as [root1 [-> | [e ->]]].
    + apply IH; [by injection Hlen | done].
    + by eexists; right.
Qed.

(** The callbacks of a record name fields inside the record. *)
Lemma below_app loc i cb : below (loc ++ [i])%list cb -> below loc cb.
Proof.
  intros (j & r & H). exists i, (j :: r). by rewrite H, <- app_assoc.
Qed.

Lemma createSliceGetOps_below elems loc i etcdKey inslice ops cbs :
  createSliceGetOps elems (loc ++ [i])%list etcdKey inslice = Ok (ops, cbs) ->
  Forall (below loc) cbs.
Proof.
  destruct elems as [|[T e|fs|es|] elems]; cbn; try discriminate.
  - intros H. injection H as _ <-. constructor.
  - destruct (IsGet e); intros H; injection H as _ <-; constructor; [|constructor].
    exists i, []. reflexivity.
Qed.

Lemma createStructGetOps_range_below fields :
  Forall (fun f => forall fs, f.2 = VStruct fs ->
            forall loc pathvar inslice ops cbs pathvar',
              createStructGetOps f.2 loc pathvar inslice = Ok (ops, cbs, pathvar') ->
              Forall (below loc) cbs) fields ->
  forall i loc pathvar inslice etcdOps callbacks ops cbs pathvar',
    Forall (below loc) callbacks ->
    createStructGetOps_range fields i loc pathvar inslice etcdOps callbacks
    = Ok (ops, cbs, pathvar') ->
    Forall (below loc) cbs.
Proof.
  induction 1 as [|[[tag|] field] fields Hfield _ IH];
    intros i loc pathvar inslice etcdOps callbacks ops cbs pathvar' Hcbs;
    cbn [createStructGetOps_range].
  - intros H. by injection H as _ <- _.
  - destruct (pathReplace tag pathvar inslice) as [etcdKey|e|]; try discriminate.
    destruct field as [T e|fs|elems|].
    + destruct (IsGet e); apply IH; [|done].
      apply Forall_app. split; [done|]. constructor; [|constructor].
      exists i, []. reflexivity.
    + destruct (createStructGetOps (VStruct fs) _ _ _) as [[[newOps newCbs] pv']| |] eqn:Hsub;
        try discriminate.
      apply IH. apply Forall_app. split; [done|].
      eapply Forall_impl; [by eapply (Hfield fs eq_refl)|].
      intros cb. apply below_app.
    + destruct (createSliceGetOps _ _ _ _) as [[newOps newCbs]| |] eqn:Hsub;
        try discriminate.
      apply IH. apply Forall_app. split; [done|].
      by eapply createSliceGetOps_below.
    + by apply IH.
  - by apply IH.
Qed.

Lemma createStructGetOps_below (value : Value) :
  forall fs, value = VStruct fs ->
  forall loc pathvar inslice ops cbs pathvar',
    createStructGetOps value loc pathvar inslice = Ok (ops, cbs, pathvar') ->
    Forall (below loc) cbs.
Proof.
  induction value as [T e|fields IH|elems _|] using Value_nested_ind;
    intros fs Hfs; try discriminate Hfs.
  intros loc pathvar inslice ops cbs pathvar'. rewrite createStructGetOps_unfold.
  by apply createStructGetOps_range_below.
Qed.

(** Assigning a field inside a record leaves a record with the same
    fields. *)
Lemma set_at_tags i r (v : Value) fields :
  exists fields', set_at (i :: r) v (VStruct fields) = VStruct fields'
                  /\ tags fields' = tags fields.
Proof.
  cbn [set_at]. eexists. split; [reflexivity|]. unfold tags.
  revert i. induction fields as [|[tag f] fields IH]; intros [|i]; cbn; try reflexivity.
  f_equal. apply IH.
Qed.

Lemma call_tags cb resp fields :
  below [] cb ->
  exists fields', (call cb resp (VStruct fields)).2 = VStruct fields'
                  /\ tags fields' = tags fields.
Proof.
  intros (i & r & Hloc). cbn [app] in Hloc.
  assert (Hset : forall v fs, exists fs', set_at (loc_of cb) v (VStruct fs) = VStruct fs'
                                       /\ tags fs' = tags fs).
  { intros v fs. rewrite Hloc. apply set_at_tags. }
  assert (Hset2 : forall v v0, exists fs', set_at (loc_of cb) v
                                          (set_at (loc_of cb) v0 (VStruct fields))
                                        = VStruct fs' /\ tags fs' = tags fields).
  { intros v v0. destruct (Hset v0 fields) as (fs0 & -> & <-). apply Hset. }
  destruct cb as [loc T|loc T]; cbn [call loc_of] in *.
  - unfold FieldCallback_call.
    destruct resp as [[|[k v] Kvs]| |]; cbn [snd]; try apply Hset; try apply Hset2.
    destruct (FromString T v); cbn [snd]; first [apply Hset2 | apply Hset].
  - unfold SliceCallback_call. destruct resp as [Kvs| |]; cbn [snd]; try apply Hset.
    destruct (SliceCallback_fill T Kvs []) as [err elems]. cbn [snd]. apply Hset.
Qed.

Lemma applyResponses_tags Responses :
  forall callbacks fields,
    Forall (below []) callbacks ->
    exists fields', (applyResponses Responses callbacks (VStruct fields)).2 = VStruct fields'
                    /\ tags fields' = tags fields.
Proof.
  induction Responses as [|r Responses IH]; intros callbacks fields Hall;
    cbn [applyResponses]; [by eexists|].
  destruct callbacks as [|cb callbacks]; [by eexists|].
  inversion_clear Hall as [|? ? Hcb Hrest].
  destruct (call_tags cb r fields Hcb) as (fields1 & Hcall & Htags).
  destruct (call cb r (VStruct fields)) as [[[]|e|] root1]; cbn [snd] in *; subst root1.
  - destruct (IH callbacks fields1 Hrest) as (fields' & -> & Ht).
    eexists. split; [reflexivity | congruence].
  - by eexists.
  - by eexists.
Qed.

(** X16: When the store answers the operations of a [Get] with one range
    response each, [Get] does not report a count mismatch and does not
    panic: it returns nil, or "Invalid data for field type" when a value
    does not parse; the argument is still a pointer to a record, with the
    fields of the record it was called with (the same tags in the same
    order). *)
Theorem store_Get_answered Commit fields m etcdOps callbacks pathvar Responses :
  createStructGetOps (VStruct fields) [] (<["@" := ""]> m) false
  = Ok (etcdOps, callbacks, pathvar) ->
  Commit etcdOps = Ok Responses ->
  length Responses = length etcdOps ->
  forallb is_range Responses = true ->
  exists fields',
    tags fields' = tags fields
    /\ (store_Get Commit (ArgPtr (VStruct fields)) (Map m)
        = (Ok (), ArgPtr (VStruct fields'))
        \/ store_Get Commit (ArgPtr (VStruct fields)) (Map m)
           = (Err ErrInvalidData, ArgPtr (VStruct fields'))).
Proof.
  intros Hops Hcommit Hlen Hrange.
  pose proof (createStructGetOps_ok (VStruct fields) fields eq_refl
                [] (<["@" := ""]> m) false) as Hok.
  rewrite Hops in Hok. destruct Hok as (Hcbs & _ & _).
  pose proof (createStructGetOps_below (VStruct fields) fields eq_refl
                _ _ _ _ _ _ Hops) as Hbelow.
  destruct (applyResponses_tags Responses callbacks fields Hbelow)
    as (fields' & Hroot & Htags).
  exists fields'. split; [exact Htags|].
  unfold store_Get. rewrite Hops, Hcommit.
  rewrite <- Hcbs, <- Hlen, Nat.eqb_refl. cbn [negb].
  destruct (applyResponses_ranges Responses callbacks (VStruct fields))
    as [root' [Happ | Happ]]; [lia|done| |];
    rewrite Happ in Hroot |- *; cbn [snd] in Hroot; subst root'.
  - left. reflexivity.
  - right. reflexivity.
Qed.

Lemma store_Get_answered_witness :
  exists fields',
    tags fields' = tags [(Some "/k", VPtr EtcdInt GetInt); (None, VOther)]
    /\ (store_Get (fun _ => Ok [ResponseRange [("/k", "x7")]])
          (ArgPtr (VStruct [(Some "/k", VPtr EtcdInt GetInt); (None, VOther)])) (Map ∅)
        = (Ok (), ArgPtr (VStruct fields'))
        \/ store_Get (fun _ => Ok [ResponseRange [("/k", "x7")]])
             (ArgPtr (VStruct [(Some "/k", VPtr EtcdInt GetInt); (None, VOther)])) (Map ∅)
           = (Err ErrInvalidData, ArgPtr (VStruct fields'))).
Proof.
  apply (store_Get_answered (fun _ => Ok [ResponseRange [("/k", "x7")]])
           [(Some "/k", VPtr EtcdInt GetInt); (None, VOther)] ∅
           [OpGet "/k"] [FieldCallback [0%nat] EtcdInt] (<["@" := ""]> ∅)
           [ResponseRange [("/k", "x7")]]).
  - vm_compute. reflexivity.
  - reflexivity.
  - reflexivity.
  - reflexivity.
Defined.

(** A value that does not parse leaves its field with a new zero value,
    not with the fetch sentinel it held, and [Get] returns the error. *)
Example store_Get_bad_value :
  store_Get (fun _ => Ok [ResponseRange [("/k", "x7")]])
    (ArgPtr (VStruct [(Some "/k", VPtr EtcdInt GetInt)])) (Map ∅)
  = (Err ErrInvalidData, ArgPtr (VStruct [(Some "/k", VPtr EtcdInt (PNew 0))])).
Proof. vm_compute. reflexivity. Qed.


Lemma get_at_set_at_apart p i r j r' (v : Value) :
  i <> j ->
  forall root,
    get_at (p ++ j :: r') (set_at (p ++ i :: r) v root) = get_at (p ++ j :: r') root.
Proof.
  intros Hij. induction p as [|k p IH]; intros root; cbn [app set_at get_at].
  - destruct root as [T e|fields|elems|]; try reflexivity.
    cbn [get_at]. rewrite list_lookup_alter_ne by done. reflexivity.
  - destruct root as [T e|fields|elems|]; try reflexivity.
    cbn [get_at]. rewrite list_lookup_alter_eq.
    destruct (fields !! k) as [[tag f]|]; [|reflexivity].
    cbn. apply IH.
Qed.

(** A callback assigns its own field: a leaf, or a record of leaves, apart
    from it is not touched. *)
Lemma call_apart cb resp root loc' v :
  apart (loc_of cb) loc' ->
  get_at loc' root = Some v ->
  leaves_only v = true ->
  get_at loc' (call cb resp root).2 = Some v.
Proof.
  intros (p & i & r & j & r' & Hloc & -> & Hij) Hv _.
  assert (Hset : forall v0 root0, get_at (p ++ j :: r') (set_at (loc_of cb) v0 root0)
                                 = get_at (p ++ j :: r') root0).
  { intros v0 root0. rewrite Hloc. by apply get_at_set_at_apart. }
  rewrite <- Hv.
  destruct cb as [loc T|loc T]; cbn [call loc_of] in *.
  - unfold FieldCallback_call.
    destruct resp as [[|[k val] Kvs]| |]; cbn [snd]; rewrite ?Hset; try reflexivity.
    destruct (FromString T val); cbn [snd]; rewrite ?Hset; reflexivity.
  - unfold SliceCallback_call. destruct resp as [Kvs| |]; cbn [snd]; rewrite ?Hset;
      try reflexivity.
    destruct (SliceCallback_fill T Kvs []) as [err elems]. cbn [snd]. apply Hset.
Qed.

(** X15: Applying the responses assigns the fields of the callbacks only: a
    leaf, or a nested record made of leaves, that lies apart from the field
    of every callback is after the loop as it was before, whatever the
    responses are and however the loop ends. Slices and fields of other
    kinds are left out: the callback of a slice writes into the backing
    array of its field, which an array or another slice of the record can
    share. *)
Theorem applyResponses_other_fields Responses :
  forall callbacks root loc' v,
    Forall (fun cb => apart (loc_of cb) loc') callbacks ->
    get_at loc' root = Some v ->
    leaves_only v = true ->
    get_at loc' (applyResponses Responses callbacks root).2 = Some v.
Proof.
  induction Responses as [|r Responses IH]; intros callbacks root loc' v Hall Hv Hleaves;
    cbn [applyResponses]; [exact Hv|].
  destruct callbacks as [|cb callbacks]; [exact Hv|].
  inversion_clear Hall as [|? ? Hcb Hrest].
  pose proof (call_apart cb r root loc' v Hcb Hv Hleaves) as Hcall.
  destruct (call cb r root) as [[[]|e|] root1]; cbn [snd] in *.
  - by apply IH.
  - exact Hcall.
  - exact Hcall.
Qed.

Lemma applyResponses_other_fields_witness :
  get_at [1%nat]
    (applyResponses [ResponseRange [("/s/a", "7")]; ResponseRange [("/k", "x")]]
       [SliceCallback [0%nat] EtcdInt; FieldCallback [2%nat] EtcdInt]
       (VStruct [(Some "/s", VSlice [VPtr EtcdInt GetInt]);
                 (Some "/n", VPtr EtcdString (SetString "kept"));
                 (Some "/k", VPtr EtcdInt GetInt)])).2
  = Some (VPtr EtcdString (SetString "kept")).
Proof.
  apply applyResponses_other_fields.
  - constructor; [|constructor; [|constructor]].
    + exists [], 0%nat, [], 1%nat, []. repeat split. discriminate.
    + exists [], 2%nat, [], 1%nat, []. repeat split. discriminate.
  - reflexivity.
  - reflexivity.
Defined.

(** ** The check of the argument *)

(** X17: [validateInterface] accepts exactly the arguments that pass the two
    checks at the head of [Get] and [Set]: a pointer to a record. For any
    other argument [Get] and [Set] return their error with the argument and
    the table untouched (a nil table does not panic) and without a call of
    the store. *)
Theorem validateInterface_agrees Commit uuid_New (g : arg) (pathvar : gomap) (n : nat) :
  (validateInterface g = None <-> exists fields, g = ArgPtr (VStruct fields))
  /\ (validateInterface g <> None ->
      (store_Get Commit g pathvar = (Err ErrNotPointer, g)
       /\ store_Set Commit uuid_New g pathvar n = Err ErrNotPointer)
      \/ (store_Get Commit g pathvar = (Err ErrNotStruct, g)
          /\ store_Set Commit uuid_New g pathvar n = Err ErrNotStruct)).
Proof.
  split.
  - split.
    + destruct g as [[T e|fields|elems|]| |]; try discriminate. by eexists.
    + intros [fields ->]. reflexivity.
  - intros Hv. destruct g as [[T e|fields|elems|]| |];
      first [ by destruct Hv | by left | by right ].
Qed.

Lemma validateInterface_agrees_witness :
  (store_Get (fun _ => Ok []) ArgNilPtr NilMap = (Err ErrNotPointer, ArgNilPtr)
   /\ store_Set (fun _ => Ok []) (fun _ => "") ArgNilPtr NilMap 0 = Err ErrNotPointer)
  \/ (store_Get (fun _ => Ok []) ArgNilPtr NilMap = (Err ErrNotStruct, ArgNilPtr)
      /\ store_Set (fun _ => Ok []) (fun _ => "") ArgNilPtr NilMap 0 = Err ErrNotStruct).
Proof.
  destruct (validateInterface_agrees (fun _ => Ok []) (fun _ => "")
              ArgNilPtr NilMap 0%nat) as [_ H].
  apply H. discriminate.
Defined.

(** ** What [FromString] accepts for the integers *)

Lemma parseDigits_inv s :
  forall n u,
    0 <= n ->
    strconv.parseDigits s n = Ok u ->
    n <= u <= strconv.maxUint64 \/ (s = "" /\ u = n).
Proof.
  induction s as [|c s IH]; intros n u Hn H; cbn [strconv.parseDigits] in H.
  - injection H as <-. by right.
  - left. destruct (strconv.digit_val c) as [d|] eqn:Hd; [|discriminate H].
    assert (Hd09 : 0 <= d <= 9).
    { unfold strconv.digit_val in Hd. cbv zeta in Hd.
      destruct (_ && _) eqn:E; [|discriminate Hd]. injection Hd as <-.
      apply andb_true_iff in E as [E1 E2]. lia. }
    destruct (Z.leb_spec (strconv.maxUint64 / 10 + 1) n) as [|Hcut]; [discriminate H|].
    cbv zeta in H.
    unfold strconv.maxUint64 in *.
    change ((2 ^ 64 - 1) / 10 + 1) with 1844674407370955162 in Hcut.
    change (2 ^ 64) with 18446744073709551616 in *.
    destruct (Z.ltb_spec ((n * 10 + d) mod 18446744073709551616) (n * 10));
      [discriminate H|].
    destruct (Z.ltb_spec (18446744073709551616 - 1) ((n * 10 + d) mod 18446744073709551616));
      [discriminate H|].
    cbn [orb] in H.
    apply IH in H; [|lia]. destruct H as [H|[_ ->]]; lia.
Qed.

Lemma parseDigits_digits s :
  forall n u, strconv.parseDigits s n = Ok u ->
    forall c, occurs c s = true -> time.isDigit c = true.
Proof.
  induction s as [|a s IH]; intros n u H c Hc; [discriminate Hc|].
  cbn [strconv.parseDigits] in H. cbn [occurs] in Hc.
  destruct (strconv.digit_val a) as [d|] eqn:Hd; [|discriminate H].
  destruct (_ <=? n); [discriminate H|]. cbv zeta in H.
  destruct (_ || _); [discriminate H|].
  apply orb_true_iff in Hc as [Hc|Hc].
  - apply Ascii.eqb_eq in Hc as ->. unfold time.isDigit. by rewrite Hd.
  - by eapply IH.
Qed.

(** X18: [FromString] of the unsigned integer type accepts only a text that is
    not empty and is made of decimal digits, and the number it stores fits
    in 64 bits; that of the signed integer type stores a number that fits in
    64 bits with a sign. *)
Theorem FromString_integers (s : string) :
  (forall u, FromString EtcdUint s = Ok u ->
     s <> "" /\ (forall c, occurs c s = true -> time.isDigit c = true)
     /\ 0 <= u < 2 ^ 64)
  /\ (forall i, FromString EtcdInt s = Ok i -> s <> "" /\ - 2 ^ 63 <= i < 2 ^ 63).
Proof.
  assert (Huint : forall t u, strconv.ParseUint t = Ok u -> 0 <= u < 2 ^ 64).
  { intros t u H. destruct t as [|c t]; [discriminate H|].
    apply parseDigits_inv in H; [|lia]. unfold strconv.maxUint64 in H.
    destruct H as [H|[H _]]; [lia | discriminate H]. }
  split.
  - intros u H. cbn [FromString] in H. split; [by intros ->|]. split.
    + destruct s as [|c s]; [discriminate H|]. by eapply parseDigits_digits.
    + by eapply Huint.
  - intros i H. cbn [FromString] in H. split; [by intros ->|].
    destruct s as [|c s]; [discriminate H|]. cbn [strconv.ParseInt] in H.
    change (2 ^ 63) with 9223372036854775808 in *.
    destruct (Ascii.eqb c "+"); [|destruct (Ascii.eqb c "-")].
    + destruct (strconv.ParseUint s) as [un| |] eqn:Hun; try discriminate H.
      apply Huint in Hun. cbn [mbind outcome_bind negb andb] in H.
      destruct (Z.leb_spec 9223372036854775808 un); [discriminate H|].
      injection H as <-. lia.
    + destruct (strconv.ParseUint s) as [un| |] eqn:Hun; try discriminate H.
      apply Huint in Hun. cbn [mbind outcome_bind negb andb] in H.
      destruct (Z.ltb_spec 9223372036854775808 un); [discriminate H|].
      injection H as <-. lia.
    + destruct (strconv.ParseUint (String c s)) as [un| |] eqn:Hun; try discriminate H.
      apply Huint in Hun. cbn [mbind outcome_bind negb andb] in H.
      destruct (Z.leb_spec 9223372036854775808 un); [discriminate H|].
      injection H as <-. lia.
Qed.

Lemma FromString_integers_witness :
  "42" <> "" /\ (forall c, occurs c "42" = true -> time.isDigit c = true)
  /\ 0 <= 42 < 2 ^ 64.
Proof.
  destruct (FromString_integers "42") as [H _]. apply H. reflexivity.
Defined.


(** ** What [FromString] accepts for a time *)

Lemma bind_Ok {A B : Type} (m : outcome A) (k : A -> outcome B) (b : B) :
  m ≫= k = Ok b -> exists a, m = Ok a /\ k a = Ok b.
Proof. destruct m as [a| |]; cbn; intros H; try discriminate H. by exists a. Qed.

Lemma digit_val_range (c : ascii) (d : Z) :
  strconv.digit_val c = Some d -> 0 <= d <= 9.
Proof.
  unfold strconv.digit_val. cbv zeta. destruct (_ && _) eqn:E; [|discriminate].
  intros H. injection H as <-. apply andb_true_iff in E as [E1 E2]. lia.
Qed.

Lemma getnum_range (s : string) (fixed : bool) (x : Z) (rest : string) :
  time.getnum s fixed = Ok (x, rest) -> 0 <= x < 100.
Proof.
  unfold time.getnum. destruct s as [|c0 [|c1 s]]; try discriminate.
  - destruct (strconv.digit_val c0) as [d0|] eqn:H0; [|discriminate].
    apply digit_val_range in H0. destruct fixed; [discriminate|].
    intros H. injection H as <- _. lia.
  - destruct (strconv.digit_val c0) as [d0|] eqn:H0; [|discriminate].
    apply digit_val_range in H0.
    destruct (strconv.digit_val c1) as [d1|] eqn:H1.
    + apply digit_val_range in H1. intros H. injection H as <- _. lia.
    + destruct fixed; [discriminate|]. intros H. injection H as <- _. lia.
Qed.

Lemma allDigits_bound (s : string) :
  forall x y, 0 <= x -> time.allDigits s x = Ok y ->
    x * 10 ^ Z.of_nat (String.length s) <= y < (x + 1) * 10 ^ Z.of_nat (String.length s).
Proof.
  induction s as [|c s IH]; intros x y Hx H; cbn [time.allDigits String.length] in *.
  - injection H as <-. lia.
  - destruct (strconv.digit_val c) as [d|] eqn:Hd; [|discriminate H].
    apply digit_val_range in Hd. apply IH in H; [|lia].
    rewrite Nat2Z.inj_succ, Z.pow_succ_r by lia.
    assert (0 < 10 ^ Z.of_nat (String.length s)) by (apply Z.pow_pos_nonneg; lia).
    nia.
Qed.

Lemma atoi_isDigit (c : ascii) (s : string) :
  time.isDigit c = true -> time.atoi (String c s) = time.allDigits (String c s) 0.
Proof.
  destruct c as [[] [] [] [] [] [] [] []]; intros H; try discriminate H; reflexivity.
Qed.

Lemma spanDigits_head (c : ascii) (s ds rest : string) :
  time.isDigit c = true ->
  time.spanDigits (String c s) = (ds, rest) ->
  exists ds', ds = String c ds'.
Proof.
  intros Hc. cbn [time.spanDigits]. rewrite Hc.
  destruct (time.spanDigits s) as [ds' rest']. intros H. injection H as <- _. by eexists.
Qed.

Lemma substring_length_le (s : string) :
  forall n, (String.length (String.substring 0 n s) <= n)%nat.
Proof.
  induction s as [|c s IH]; intros [|n]; cbn [String.substring String.length]; try lia.
  specialize (IH n). lia.
Qed.

(** The nanoseconds are below a second whatever the number of digits. *)
Lemma parseNanoseconds_range (sep c : ascii) (ds : string) (ns : Z) :
  time.isDigit c = true ->
  time.parseNanoseconds sep (String c ds) = Ok ns -> 0 <= ns < 1000000000.
Proof.
  intros Hc. unfold time.parseNanoseconds.
  destruct (negb (time.commaOrPeriod sep)); [discriminate|]. cbv zeta.
  change (String.substring 0 9 (String c ds)) with (String c (String.substring 0 8 ds)).
  rewrite atoi_isDigit by done.
  intros H. apply bind_Ok in H as (n & Hn & H).
  apply allDigits_bound in Hn; [|lia].
  destruct (Z.ltb_spec n 0); [discriminate H|].
  injection H as <-.
  pose proof (substring_length_le ds 8) as Hlen.
  cbn [String.length] in Hn |- *.
  remember (String.length (String.substring 0 8 ds)) as len eqn:Elen. clear Elen.
  replace (Z.of_nat (8 - len)) with (9 - Z.of_nat (S len)) by lia.
  remember (Z.of_nat (S len)) as l eqn:El.
  assert (Hl : 0 <= l <= 9) by lia. clear El.
  assert (Hp : 10 ^ l * 10 ^ (9 - l) = 1000000000).
  { rewrite <- Z.pow_add_r by lia. replace (l + (9 - l)) with 9 by lia. reflexivity. }
  assert (0 < 10 ^ (9 - l)) by (apply Z.pow_pos_nonneg; lia).
  nia.
Qed.

Lemma parseFraction_range (value : string) (ns : Z) (rest : string) :
  time.parseFraction value = Ok (ns, rest) -> 0 <= ns < 1000000000.
Proof.
  assert (Hskip : Ok (0, value) = Ok (ns, rest) -> 0 <= ns < 1000000000)
    by (intros H; injection H as <- _; lia).
  destruct value as [|sep [|c tl]]; try exact Hskip.
  cbn [time.parseFraction].
  destruct (time.commaOrPeriod sep); [|exact Hskip].
  destruct (time.isDigit c) eqn:Hc; [|exact Hskip]. cbn [andb].
  destruct (time.spanDigits (String c tl)) as [ds rest'] eqn:Hspan.
  destruct (spanDigits_head c tl ds rest' Hc Hspan) as [ds' ->].
  intros H. apply bind_Ok in H as (n & Hn & H). injection H as <- _.
  by eapply parseNanoseconds_range.
Qed.

(** The offset of the zone chunk is of whole minutes, and of 25 hours at
    most: 24 hours and 60 minutes pass the range tests. *)
Lemma parseZone_offset_range (value : string) (off : Z) (rest : string) :
  time.parseZone value = Ok (off, rest) -> off mod 60 = 0 /\ -90000 <= off <= 90000.
Proof.
  unfold time.parseZone.
  destruct value as [|sign value]; [discriminate|].
  assert (Hz : Ok (0, value) = Ok (off, rest) -> off mod 60 = 0 /\ -90000 <= off <= 90000)
    by (intros H; injection H as <- _; split; [reflexivity | lia]).
  assert (Hoff : forall h0 h1 colon m0 m1 v,
    (if negb (Ascii.eqb colon ":") then Err ErrTimeParse
     else '(hr, _) ← time.getnum (String h0 (String h1 "")) true;
          '(mm, _) ← time.getnum (String m0 (String m1 "")) true;
          if (24 <? hr) || (60 <? mm) then Err ErrTimeParse
          else
            let zoneOffset := (hr * 60 + mm) * 60 in
            if Ascii.eqb sign "+" then Ok (zoneOffset, v)
            else if Ascii.eqb sign "-" then Ok (- zoneOffset, v) else Err ErrTimeParse)
    = Ok (off, rest) -> off mod 60 = 0 /\ -90000 <= off <= 90000).
  { intros h0 h1 colon m0 m1 v H. destruct (negb _); [discriminate H|].
    apply bind_Ok in H as ([hr v1] & Hhr & H). apply getnum_range in Hhr.
    apply bind_Ok in H as ([mm v2] & Hmm & H). apply getnum_range in Hmm.
    destruct (Z.ltb_spec 24 hr); [discriminate H|].
    destruct (Z.ltb_spec 60 mm); [discriminate H|]. cbn [orb] in H. cbv zeta in H.
    destruct (Ascii.eqb sign "+"); [|destruct (Ascii.eqb sign "-")];
      try discriminate H; injection H as <- _.
    - split; [apply Z.mod_mul; lia | lia].
    - split; [rewrite <- Z.mul_opp_l; apply Z.mod_mul; lia | lia]. }
  destruct value as [|h0 [|h1 [|colon [|m0 [|m1 v]]]]];
    destruct sign as [[] [] [] [] [] [] [] []]; try discriminate; try exact Hz;
    apply Hoff.
Qed.

(** What [Parse] accepts beside the texts that [Format] writes: a fraction
    of a second after a period or a comma, of which the digits after the
    ninth are dropped; an hour of one digit; an offset of 24 hours and 60
    minutes. An offset of more, a sign in the digits of the offset, and a
    day that the month does not have are refused. *)
Example Parse_accepts :
  time.Parse "2018-08-30T12:00:00.5Z" = Ok (time.mkTime 2018 8 30 12 0 0 500000000 0)
  /\ time.Parse "2018-08-30T12:00:00,5Z" = Ok (time.mkTime 2018 8 30 12 0 0 500000000 0)
  /\ time.Parse "2018-08-30T12:00:00.1234567891Z"
     = Ok (time.mkTime 2018 8 30 12 0 0 123456789 0)
  /\ time.Parse "2018-08-30T7:00:00Z" = Ok (time.mkTime 2018 8 30 7 0 0 0 0)
  /\ time.Parse "2018-08-30T12:00:00+24:60" = Ok (time.mkTime 2018 8 30 12 0 0 0 90000)
  /\ time.Parse "2018-08-30T12:00:00-05:30" = Ok (time.mkTime 2018 8 30 12 0 0 0 (-19800)).
Proof. repeat split; vm_compute; reflexivity. Qed.

Example Parse_refuses :
  time.Parse "2018-08-30T12:00:00+25:00" = Err ErrTimeParse
  /\ time.Parse "2018-08-30T12:00:00++1:30" = Err ErrTimeParse
  /\ time.Parse "2018-08-30T12:00:00+99:99" = Err ErrTimeParse
  /\ time.Parse "2018-08-30T12:00:00.Z" = Err ErrTimeParse
  /\ time.Parse "2018-08-30T12:00:60Z" = Err ErrTimeParse
  /\ time.Parse "2018-02-30T12:00:00Z" = Err ErrTimeParse
  /\ time.Parse "2018-8-30T12:00:00Z" = Err ErrTimeParse
  /\ time.Parse "2018-08-30 12:00:00Z" = Err ErrTimeParse
  /\ time.Parse "2018-08-30T12:00:00" = Err ErrTimeParse
  /\ time.Parse "2018-08-30T12:00:00Zx" = Err ErrTimeParse.
Proof. repeat split; vm_compute; reflexivity. Qed.

(** X19: A time that [FromString] reads is a date of the calendar with a time
    of the day: the year has four digits, the month is 1 to 12, the day
    exists in that month of that year, hour, minute and second are in range
    (no leap second), the fraction is below a second, and the offset is of
    whole minutes and of 25 hours at most. *)
Theorem FromString_time_valid (s : string) (t : time.Time) :
  FromString EtcdTime s = Ok t ->
  0 <= time.Year t <= 9999
  /\ 1 <= time.Month t <= 12
  /\ 1 <= time.Day t <= time.daysIn (time.Month t) (time.Year t)
  /\ 0 <= time.Hour t < 24
  /\ 0 <= time.Minute t < 60
  /\ 0 <= time.Second t < 60
  /\ 0 <= time.Nanosecond t < 1000000000
  /\ time.Offset t mod 60 = 0
  /\ -90000 <= time.Offset t <= 90000.
Proof.
  cbn [FromString]. unfold time.Parse.
  destruct s as [|c0 [|c1 [|c2 [|c3 value]]]]; try discriminate.
  destruct (time.isDigit c0) eqn:Hc0; [|discriminate]. cbn [negb].
  intros H.
  apply bind_Ok in H as (year & Hyear & H).
  rewrite atoi_isDigit in Hyear by done. apply allDigits_bound in Hyear; [|lia].
  change (10 ^ Z.of_nat (String.length (String c0 (String c1 (String c2 (String c3 ""))))))
    with 10000 in Hyear.
  apply bind_Ok in H as (v1 & _ & H).
  apply bind_Ok in H as ([month v2] & Hmonth & H). apply getnum_range in Hmonth.
  destruct (Z.leb_spec month 0); [discriminate H|].
  destruct (Z.ltb_spec 12 month); [discriminate H|]. cbn [orb] in H.
  apply bind_Ok in H as (v3 & _ & H).
  apply bind_Ok in H as ([day v4] & Hday & H).
  apply bind_Ok in H as (v5 & _ & H).
  apply bind_Ok in H as ([hour v6] & Hhour & H). apply getnum_range in Hhour.
  destruct (Z.leb_spec 24 hour); [discriminate H|].
  apply bind_Ok in H as (v7 & _ & H).
  apply bind_Ok in H as ([min v8] & Hmin & H). apply getnum_range in Hmin.
  destruct (Z.leb_spec 60 min); [discriminate H|].
  apply bind_Ok in H as (v9 & _ & H).
  apply bind_Ok in H as ([sec v10] & Hsec & H). apply getnum_range in Hsec.
  destruct (Z.leb_spec 60 sec); [discriminate H|].
  apply bind_Ok in H as ([nsec v11] & Hnsec & H). apply parseFraction_range in Hnsec.
  apply bind_Ok in H as ([off v12] & Hoff & H). apply parseZone_offset_range in Hoff.
  destruct v12; [|discriminate H].
  destruct (Z.ltb_spec day 1); [discriminate H|].
  destruct (Z.ltb_spec (time.daysIn month year) day); [discriminate H|].
  cbn [orb] in H. injection H as <-. cbn. lia.
Qed.

Lemma FromString_time_valid_witness :
  0 <= 2020 <= 9999 /\ 1 <= 2 <= 12 /\ 1 <= 29 <= time.daysIn 2 2020
  /\ 0 <= 23 < 24 /\ 0 <= 59 < 60 /\ 0 <= 58 < 60
  /\ 0 <= 120000000 < 1000000000 /\ 19800 mod 60 = 0 /\ -90000 <= 19800 <= 90000.
Proof.
  apply (FromString_time_valid "2020-02-29T23:59:58,12+05:30"
           (time.mkTime 2020 2 29 23 59 58 120000000 19800)).
  vm_compute. reflexivity.
Defined.


(** ** The blobs that do come back *)

Lemma Z_range_forall (f : Z -> bool) (n : nat) :
  forallb (fun k => f (Z.of_nat k)) (seq 0 n) = true ->
  forall i, 0 <= i < Z.of_nat n -> f i = true.
Proof.
  intros H i Hi. rewrite forallb_forall in H.
  specialize (H (Z.to_nat i)). rewrite Z2Nat.id in H by lia.
  apply H. apply in_seq. lia.
Qed.

Lemma decodeMap_symbol (i : Z) :
  0 <= i < 64 ->
  base64.decodeMap base64.RawStdEncoding (base64.symbol base64.RawStdEncoding i) = Some i.
Proof.
  intros Hi.
  pose proof (Z_range_forall
    (fun i => match base64.decodeMap base64.RawStdEncoding
                      (base64.symbol base64.RawStdEncoding i) with
              | Some j => j =? i
              | None => false
              end) 64 ltac:(vm_compute; reflexivity) i Hi) as H.
  cbv beta in H.
  destruct (base64.decodeMap _ _) as [j|]; [|discriminate H].
  apply Z.eqb_eq in H as ->. reflexivity.
Qed.

Lemma symbol_url_std (i : Z) :
  0 <= i < 64 ->
  Ascii.eqb "-" (base64.symbol base64.RawURLEncoding i) = false ->
  Ascii.eqb "_" (base64.symbol base64.RawURLEncoding i) = false ->
  base64.symbol base64.RawURLEncoding i = base64.symbol base64.RawStdEncoding i.
Proof.
  intros Hi H1 H2.
  pose proof (Z_range_forall
    (fun i => Ascii.eqb "-" (base64.symbol base64.RawURLEncoding i)
              || Ascii.eqb "_" (base64.symbol base64.RawURLEncoding i)
              || Ascii.eqb (base64.symbol base64.RawURLEncoding i)
                   (base64.symbol base64.RawStdEncoding i))
    64 ltac:(vm_compute; reflexivity) i Hi) as H.
  cbv beta in H. rewrite H1, H2 in H. cbn [orb] in H. by apply Ascii.eqb_eq.
Qed.

(** Bits as arithmetic. *)
Lemma land_shiftl_low (a b k : Z) :
  0 <= k -> 0 <= b < 2 ^ k -> Z.land (Z.shiftl a k) b = 0.
Proof.
  intros Hk Hb. apply Z.bits_inj'. intros n Hn.
  rewrite Z.land_spec, Z.bits_0.
  destruct (Z.lt_ge_cases n k) as [Hlt|Hge].
  - rewrite Z.shiftl_spec_low by done. reflexivity.
  - rewrite (Z.testbit_odd b), Z.shiftr_div_pow2 by done.
    rewrite Z.div_small, andb_false_r; [reflexivity|].
    split; [lia|]. apply Z.lt_le_trans with (2 ^ k); [lia|].
    apply Z.pow_le_mono_r; lia.
Qed.

Lemma lor_shiftl_add (a b k : Z) :
  0 <= k -> 0 <= b < 2 ^ k -> Z.lor (Z.shiftl a k) b = a * 2 ^ k + b.
Proof.
  intros Hk Hb. rewrite <- Z.shiftl_mul_pow2 by done.
  rewrite <- Z.lxor_lor by (by apply land_shiftl_low).
  symmetry. apply Z.add_nocarry_lxor. by apply land_shiftl_low.
Qed.

Lemma land_63 (x : Z) : Z.land x 63 = x mod 64.
Proof. change 63 with (Z.ones 6). by rewrite Z.land_ones by lia. Qed.

Lemma land_255 (x : Z) : Z.land x 255 = x mod 256.
Proof. change 255 with (Z.ones 8). by rewrite Z.land_ones by lia. Qed.

Lemma encode_val (b0 b1 b2 : Z) :
  0 <= b0 -> 0 <= b1 < 256 -> 0 <= b2 < 256 ->
  Z.lor (Z.lor (Z.shiftl b0 16) (Z.shiftl b1 8)) b2 = b0 * 65536 + b1 * 256 + b2.
Proof.
  intros H0 H1 H2.
  replace (Z.shiftl b0 16) with (Z.shiftl (Z.shiftl b0 8) 8)
    by (rewrite Z.shiftl_shiftl by lia; reflexivity).
  rewrite <- Z.shiftl_lor, (lor_shiftl_add b0 b1 8) by (change (2 ^ 8) with 256; lia).
  rewrite lor_shiftl_add by (change (2 ^ 8) with 256; lia).
  change (2 ^ 8) with 256. lia.
Qed.

Lemma quantum_val (d0 d1 d2 d3 : Z) :
  0 <= d0 < 64 -> 0 <= d1 < 64 -> 0 <= d2 < 64 -> 0 <= d3 < 64 ->
  Z.lor (Z.lor (Z.lor (Z.shiftl d0 18) (Z.shiftl d1 12)) (Z.shiftl d2 6)) d3
  = d0 * 262144 + d1 * 4096 + d2 * 64 + d3.
Proof.
  intros H0 H1 H2 H3.
  replace (Z.shiftl d0 18) with (Z.shiftl (Z.shiftl (Z.shiftl d0 6) 6) 6)
    by (rewrite !Z.shiftl_shiftl by lia; reflexivity).
  replace (Z.shiftl d1 12) with (Z.shiftl (Z.shiftl d1 6) 6)
    by (rewrite Z.shiftl_shiftl by lia; reflexivity).
  rewrite <- !Z.shiftl_lor.
  rewrite (lor_shiftl_add d0 d1 6) by (change (2 ^ 6) with 64; lia).
  rewrite (lor_shiftl_add _ d2 6) by (change (2 ^ 6) with 64; lia).
  rewrite lor_shiftl_add by (change (2 ^ 6) with 64; lia).
  change (2 ^ 6) with 64. lia.
Qed.

Lemma sextet_range (x : Z) : 0 <= Z.land x 63 < 64.
Proof. rewrite land_63. apply Z.mod_pos_bound. lia. Qed.

(** The three shapes of a quantum: three bytes, and one or two at the end. *)
Lemma quantum_3 (b0 b1 b2 : Z) :
  0 <= b0 < 256 -> 0 <= b1 < 256 -> 0 <= b2 < 256 ->
  let val := Z.lor (Z.lor (Z.shiftl b0 16) (Z.shiftl b1 8)) b2 in
  base64.quantum (Z.land (Z.shiftr val 18) 63) (Z.land (Z.shiftr val 12) 63)
    (Z.land (Z.shiftr val 6) 63) (Z.land val 63) 4
  = [b0; b1; b2].
Proof.
  intros H0 H1 H2 val. unfold val. rewrite encode_val by lia.
  unfold base64.quantum. cbn [Nat.sub firstn].
  match goal with
  | |- context [Z.lor (Z.lor (Z.lor (Z.shiftl ?a 18) (Z.shiftl ?b 12)) (Z.shiftl ?c 6)) ?d] =>
      rewrite (quantum_val a b c d) by first [apply sextet_range | lia]
  end.
  rewrite !land_63, !land_255, !Z.shiftr_div_pow2 by lia.
  change (2 ^ 18) with 262144. change (2 ^ 12) with 4096. change (2 ^ 6) with 64.
  change (2 ^ 16) with 65536. change (2 ^ 8) with 256.
  repeat f_equal; Z.div_mod_to_equations; lia.
Qed.

Lemma quantum_2 (b0 b1 : Z) :
  0 <= b0 < 256 -> 0 <= b1 < 256 ->
  let val := Z.lor (Z.shiftl b0 16) (Z.shiftl b1 8) in
  base64.quantum (Z.land (Z.shiftr val 18) 63) (Z.land (Z.shiftr val 12) 63)
    (Z.land (Z.shiftr val 6) 63) 0 3
  = [b0; b1].
Proof.
  intros H0 H1 val. unfold val.
  rewrite <- (Z.lor_0_r (Z.lor _ _)), encode_val by lia.
  unfold base64.quantum. cbn [Nat.sub firstn].
  match goal with
  | |- context [Z.lor (Z.lor (Z.lor (Z.shiftl ?a 18) (Z.shiftl ?b 12)) (Z.shiftl ?c 6)) ?d] =>
      rewrite (quantum_val a b c d) by first [apply sextet_range | lia]
  end.
  rewrite !land_63, !land_255, !Z.shiftr_div_pow2 by lia.
  change (2 ^ 18) with 262144. change (2 ^ 12) with 4096. change (2 ^ 6) with 64.
  change (2 ^ 16) with 65536. change (2 ^ 8) with 256.
  repeat f_equal; Z.div_mod_to_equations; lia.
Qed.

Lemma quantum_1 (b0 : Z) :
  0 <= b0 < 256 ->
  let val := Z.shiftl b0 16 in
  base64.quantum (Z.land (Z.shiftr val 18) 63) (Z.land (Z.shiftr val 12) 63) 0 0 2
  = [b0].
Proof.
  intros H0 val. unfold val.
  rewrite Z.shiftl_mul_pow2 by lia. change (2 ^ 16) with 65536.
  unfold base64.quantum. cbn [Nat.sub firstn].
  match goal with
  | |- context [Z.lor (Z.lor (Z.lor (Z.shiftl ?a 18) (Z.shiftl ?b 12)) (Z.shiftl ?c 6)) ?d] =>
      rewrite (quantum_val a b c d) by first [apply sextet_range | lia]
  end.
  rewrite !land_63, !land_255, !Z.shiftr_div_pow2 by lia.
  change (2 ^ 18) with 262144. change (2 ^ 12) with 4096.
  change (2 ^ 16) with 65536.
  repeat f_equal; Z.div_mod_to_equations; lia.
Qed.

Lemma list_ind3 {A : Type} (P : list A -> Prop) :
  P [] -> (forall a, P [a]) -> (forall a b, P [a; b]) ->
  (forall a b c l, P l -> P (a :: b :: c :: l)) ->
  forall l, P l.
Proof.
  intros H0 H1 H2 H3. fix IH 1. intros [|a [|b [|c l]]].
  - exact H0.
  - apply H1.
  - apply H2.
  - apply H3, IH.
Qed.

Lemma decode_quantum_4 enc c0 c1 c2 c3 d0 d1 d2 d3 rest :
  base64.decodeMap enc c0 = Some d0 -> base64.decodeMap enc c1 = Some d1 ->
  base64.decodeMap enc c2 = Some d2 -> base64.decodeMap enc c3 = Some d3 ->
  base64.decode enc (String c0 (String c1 (String c2 (String c3 rest)))) []
  = (dst ← base64.decode enc rest []; Ok (base64.quantum d0 d1 d2 d3 4 ++ dst)%list).
Proof.
  intros H0 H1 H2 H3. cbn [base64.decode]. rewrite H0. cbn [app].
  rewrite H1. cbn [app]. rewrite H2. cbn [app]. rewrite H3. reflexivity.
Qed.

Lemma decode_quantum_3 enc c0 c1 c2 d0 d1 d2 :
  base64.decodeMap enc c0 = Some d0 -> base64.decodeMap enc c1 = Some d1 ->
  base64.decodeMap enc c2 = Some d2 ->
  base64.decode enc (String c0 (String c1 (String c2 ""))) []
  = Ok (base64.quantum d0 d1 d2 0 3).
Proof.
  intros H0 H1 H2. cbn [base64.decode]. rewrite H0. cbn [app].
  rewrite H1. cbn [app]. rewrite H2. reflexivity.
Qed.

Lemma decode_quantum_2 enc c0 c1 d0 d1 :
  base64.decodeMap enc c0 = Some d0 -> base64.decodeMap enc c1 = Some d1 ->
  base64.decode enc (String c0 (String c1 "")) [] = Ok (base64.quantum d0 d1 0 0 2).
Proof.
  intros H0 H1. cbn [base64.decode]. rewrite H0. cbn [app]. rewrite H1. reflexivity.
Qed.

(** With one alphabet for both directions a blob comes back. *)
Lemma DecodeString_EncodeToString_std (b : list Z) :
  Forall (fun x => 0 <= x < 256) b ->
  base64.DecodeString base64.RawStdEncoding
    (base64.EncodeToString base64.RawStdEncoding b) = Ok b.
Proof.
  unfold base64.DecodeString.
  induction b as [|b0|b0 b1|b0 b1 b2 b IH] using list_ind3; intros Hb.
  - reflexivity.
  - inversion_clear Hb as [|? ? H0 _].
    cbn [base64.EncodeToString]. cbv zeta.
    rewrite (decode_quantum_2 _ _ _ _ _
               (decodeMap_symbol _ (sextet_range _)) (decodeMap_symbol _ (sextet_range _))).
    f_equal. by apply quantum_1.
  - inversion_clear Hb as [|? ? H0 Hb']. inversion_clear Hb' as [|? ? H1 _].
    cbn [base64.EncodeToString]. cbv zeta.
    rewrite (decode_quantum_3 _ _ _ _ _ _ _
               (decodeMap_symbol _ (sextet_range _)) (decodeMap_symbol _ (sextet_range _))
               (decodeMap_symbol _ (sextet_range _))).
    f_equal. by apply quantum_2.
  - inversion_clear Hb as [|? ? H0 Hb']. inversion_clear Hb' as [|? ? H1 Hb''].
    inversion_clear Hb'' as [|? ? H2 Hb].
    cbn [base64.EncodeToString]. cbv zeta.
    rewrite (decode_quantum_4 _ _ _ _ _ _ _ _ _ _
               (decodeMap_symbol _ (sextet_range _)) (decodeMap_symbol _ (sextet_range _))
               (decodeMap_symbol _ (sextet_range _)) (decodeMap_symbol _ (sextet_range _))).
    rewrite IH by done. cbn [mbind outcome_bind]. f_equal.
    rewrite (quantum_3 b0 b1 b2) by done. reflexivity.
Qed.

Lemma occurs_cons_false (c x : ascii) (s : string) :
  occurs c (String x s) = false -> Ascii.eqb c x = false /\ occurs c s = false.
Proof. cbn [occurs]. apply orb_false_iff. Qed.

(** A text without the two symbols is the same in both alphabets. *)
Lemma EncodeToString_url_std (b : list Z) :
  occurs "-" (base64.EncodeToString base64.RawURLEncoding b) = false ->
  occurs "_" (base64.EncodeToString base64.RawURLEncoding b) = false ->
  base64.EncodeToString base64.RawURLEncoding b
  = base64.EncodeToString base64.RawStdEncoding b.
Proof.
  induction b as [|b0|b0 b1|b0 b1 b2 b IH] using list_ind3;
    cbn [base64.EncodeToString]; cbv zeta; intros Hd Hu.
  - reflexivity.
  - apply occurs_cons_false in Hd as [Hd0 Hd]. apply occurs_cons_false in Hd as [Hd1 _].
    apply occurs_cons_false in Hu as [Hu0 Hu]. apply occurs_cons_false in Hu as [Hu1 _].
    rewrite !symbol_url_std by first [apply sextet_range | done]. reflexivity.
  - apply occurs_cons_false in Hd as [Hd0 Hd]. apply occurs_cons_false in Hd as [Hd1 Hd].
    apply occurs_cons_false in Hd as [Hd2 _].
    apply occurs_cons_false in Hu as [Hu0 Hu]. apply occurs_cons_false in Hu as [Hu1 Hu].
    apply occurs_cons_false in Hu as [Hu2 _].
    rewrite !symbol_url_std by first [apply sextet_range | done]. reflexivity.
  - apply occurs_cons_false in Hd as [Hd0 Hd]. apply occurs_cons_false in Hd as [Hd1 Hd].
    apply occurs_cons_false in Hd as [Hd2 Hd]. apply occurs_cons_false in Hd as [Hd3 Hd].
    apply occurs_cons_false in Hu as [Hu0 Hu]. apply occurs_cons_false in Hu as [Hu1 Hu].
    apply occurs_cons_false in Hu as [Hu2 Hu]. apply occurs_cons_false in Hu as [Hu3 Hu].
    rewrite IH by done.
    rewrite !symbol_url_std by first [apply sextet_range | done]. reflexivity.
Qed.

(** X20: A blob written by [ToString] is read back by [FromString] exactly when
    its text has neither ['-'] nor ['_'], the two symbols on which the
    alphabet of the one differs from the alphabet of the other. *)
Theorem bytes_round_trip_iff (b : list Z) :
  Forall (fun x => 0 <= x < 256) b ->
  (s ← ToString EtcdBytes (SetBytes b); FromString EtcdBytes s) = Ok b
  <-> occurs "-" (base64.EncodeToString base64.RawURLEncoding b)
      || occurs "_" (base64.EncodeToString base64.RawURLEncoding b) = false.
Proof.
  intros Hb. split.
  - intros Hback.
    destruct (occurs "-" _ || occurs "_" _) eqn:Hocc; [|reflexivity].
    destruct (decode_url_text_fails b Hocc) as [_ Hfail].
    cbn [ToString SetBytes load mbind outcome_bind] in Hback.
    rewrite Hfail in Hback. discriminate Hback.
  - intros Hocc. apply orb_false_iff in Hocc as [Hd Hu].
    cbn [ToString SetBytes load mbind outcome_bind FromString].
    rewrite EncodeToString_url_std by done.
    by apply DecodeString_EncodeToString_std.
Qed.

Lemma bytes_round_trip_iff_witness :
  (s ← ToString EtcdBytes (SetBytes [104; 101; 108; 108; 111]); FromString EtcdBytes s)
  = Ok [104; 101; 108; 108; 111]
  <-> occurs "-" (base64.EncodeToString base64.RawURLEncoding [104; 101; 108; 108; 111])
      || occurs "_" (base64.EncodeToString base64.RawURLEncoding [104; 101; 108; 108; 111])
      = false.
Proof.
  apply bytes_round_trip_iff. repeat constructor; lia.
Defined.


(** ** C6: the blobs, one by one *)

Lemma symbol_agree (i : Z) :
  0 <= i < 64 ->
  base64.symbol base64.RawURLEncoding i = base64.symbol base64.RawStdEncoding i <-> i < 62.
Proof.
  intros Hi.
  pose proof (Z_range_forall
    (fun i => Bool.eqb (Ascii.eqb (base64.symbol base64.RawURLEncoding i)
                                  (base64.symbol base64.RawStdEncoding i))
                       (i <? 62)) 64 ltac:(vm_compute; reflexivity) i Hi) as H.
  cbv beta in H. apply Bool.eqb_prop in H.
  rewrite <- Z.ltb_lt, <- H. symmetry. apply Ascii.eqb_eq.
Qed.

(** C6, amended: [ToString] writes a blob with the URL alphabet and
    [FromString] reads with the standard alphabet; the two agree on the
    symbols 0 to 61 and differ on the symbols 62 and 63. A blob written and
    read back is the same blob when its text has neither ['-'] nor ['_'];
    the text of every other blob is refused by [FromString] with a
    [CorruptInputError]. No blob is read back as another blob. *)
Theorem bytes_round_trip_exact (b : list Z) :
  in_domain EtcdBytes b ->
  (forall i, 0 <= i < 64 ->
     base64.symbol base64.RawURLEncoding i = base64.symbol base64.RawStdEncoding i
     <-> i < 62)
  /\ exists s,
       ToString EtcdBytes (SetBytes b) = Ok s
       /\ FromString EtcdBytes s
          = if occurs "-" s || occurs "_" s then Err ErrCorruptInput else Ok b.
Proof.
  intros Hb. split; [exact symbol_agree|].
  exists (base64.EncodeToString base64.RawURLEncoding b). split; [reflexivity|].
  destruct (occurs "-" _ || occurs "_" _) eqn:Hocc.
  - by destruct (decode_url_text_fails b Hocc) as [_ Hfail].
  - apply orb_false_iff in Hocc as [Hd Hu]. cbn [FromString].
    rewrite EncodeToString_url_std by done.
    by apply DecodeString_EncodeToString_std.
Qed.

Lemma bytes_round_trip_exact_witness :
  (forall i, 0 <= i < 64 ->
     base64.symbol base64.RawURLEncoding i = base64.symbol base64.RawStdEncoding i
     <-> i < 62)
  /\ exists s,
       ToString EtcdBytes (SetBytes [251; 255]) = Ok s
       /\ FromString EtcdBytes s
          = if occurs "-" s || occurs "_" s then Err ErrCorruptInput else Ok [251; 255].
Proof.
  apply (bytes_round_trip_exact [251; 255]). repeat constructor; lia.
Defined.
